(** * FileNavigationSound: the event parser, the navigation state machine,
      the process watchdog and the supervising loop of
      [file_navigation_sound.py], embedded in Rocq.

    Conventions of the embedding.
    - A Python [str] is a [string] of 8-bit characters, read as code points
      below 256.  On these, the digit class of regular expressions is [0-9] and
      the whitespace removed by [str.strip] is the set given by
      [is_space] below.
    - A Python [int] is a [Z]; [None] is the [None] of [option].
    - A raised exception is the [Raise] branch of [result].
    - Effects (audio, logging, sleeping, the subprocess) are recorded in a
      trace of [effect]s; the operating system is an explicit [World]. *)

From Stdlib Require Import ZArith Ascii String List Bool Lia.
From stdpp Require Import base decidable option list gmap strings.
Import ListNotations.

Open Scope string_scope.
Open Scope list_scope.
Open Scope Z_scope.

(** ** Characters and strings *)

Definition dquote : ascii := "034"%char.
Definition newline : ascii := "010"%char.
Definition slash : ascii := "/"%char.

(** [c1 == c2] on characters. *)
Definition ascii_eqb (a b : ascii) : bool := Ascii.eqb a b.

(** A one-character string. *)
Definition chr (c : ascii) : string := String c EmptyString.

(** [s] wrapped in double quotes. *)
Definition quoted (s : string) : string := String dquote (s +:+ chr dquote).

(** [len(s) == 0]. *)
Definition is_empty (s : string) : bool :=
  match s with EmptyString => true | String _ _ => false end.

(** [s.startswith(p)]. *)
Fixpoint startswith (p s : string) : bool :=
  match p, s with
  | EmptyString, _ => true
  | String a p', String b s' => ascii_eqb a b && startswith p' s'
  | String _ _, EmptyString => false
  end.

(** [s[n:]]. *)
Fixpoint drop_str (n : nat) (s : string) : string :=
  match n, s with
  | O, _ => s
  | S n', String _ s' => drop_str n' s'
  | S _, EmptyString => EmptyString
  end.

(** [sub in s]: [sub] occurs in [s] as a contiguous substring. *)
Fixpoint contains (sub s : string) : bool :=
  startswith sub s ||
  match s with
  | EmptyString => false
  | String _ s' => contains sub s'
  end.

(** The digit class of regular expressions, on code points below 256. *)
Definition is_digit (c : ascii) : bool :=
  let n := nat_of_ascii c in (48 <=? n)%nat && (n <=? 57)%nat.

(** The longest prefix of [s] made of digits: what a greedy run of the digit class takes. *)
Fixpoint take_digits (s : string) : string :=
  match s with
  | EmptyString => EmptyString
  | String c s' => if is_digit c then String c (take_digits s') else EmptyString
  end.

(** The decimal value of a run of digits [ds], most significant digit
    first: what [int(ds)] returns when it returns. *)
Fixpoint int_digits (acc : Z) (ds : string) : Z :=
  match ds with
  | EmptyString => acc
  | String c ds' => int_digits (10 * acc + (Z.of_nat (nat_of_ascii c) - 48)) ds'
  end.

Definition int_of (ds : string) : Z := int_digits 0 ds.

(** Whitespace for [str.strip()], on code points below 256:
    TAB LF VT FF CR, FS GS RS US, space, NEL and NBSP. *)
Definition is_space (c : ascii) : bool :=
  let n := nat_of_ascii c in
  ((9 <=? n)%nat && (n <=? 13)%nat) || ((28 <=? n)%nat && (n <=? 32)%nat)
  || (n =? 133)%nat || (n =? 160)%nat.

(** [s.lstrip()]. *)
Fixpoint lstrip (s : string) : string :=
  match s with
  | EmptyString => EmptyString
  | String c s' => if is_space c then lstrip s' else s
  end.

(** [s.rstrip()]. *)
Fixpoint rstrip (s : string) : string :=
  match s with
  | EmptyString => EmptyString
  | String c s' =>
      let r := rstrip s' in
      if is_empty r && is_space c then EmptyString else String c r
  end.

(** [s.strip()]. *)
Definition strip (s : string) : string := rstrip (lstrip s).

(** ** The three regular expressions of [extract_app_event] *)

(** [re.search] for the pattern [uint32 ] followed by a group of one or more
    digits: [Some] of group 1 of the leftmost match, [None] when there is no
    match.  At a start position the pattern needs the literal [uint32 ] and
    at least one digit; group 1 is the whole run of digits there. *)
Fixpoint search_uint32 (s : string) : option string :=
  let here :=
    if startswith "uint32 " s then
      let ds := take_digits (drop_str 7 s) in
      if is_empty ds then None else Some ds
    else None in
  match here with
  | Some ds => Some ds
  | None =>
      match s with
      | EmptyString => None
      | String _ s' => search_uint32 s'
      end
  end.

(** The part of [s] before its first line feed: the most that the group
    (any characters, greedy) can take, since the dot of a regular expression
    matches every character but the line feed. *)
Fixpoint upto_newline (s : string) : string :=
  match s with
  | EmptyString => EmptyString
  | String c s' => if ascii_eqb c newline then EmptyString else String c (upto_newline s')
  end.

(** The part of [s] before its last double quote, [None] when [s] has no
    double quote: the greedy group followed by the literal quote. *)
Fixpoint before_last_quote (s : string) : option string :=
  match s with
  | EmptyString => None
  | String c s' =>
      match before_last_quote s' with
      | Some r => Some (String c r)
      | None => if ascii_eqb c dquote then Some EmptyString else None
      end
  end.

(** [re.search] for a literal [scheme], a greedy group of any characters and
    a closing double quote: group 1 of the leftmost match. *)
Fixpoint search_uri (scheme : string) (s : string) : option string :=
  let here :=
    if startswith scheme s
    then before_last_quote (upto_newline (drop_str (String.length scheme) s))
    else None in
  match here with
  | Some g => Some g
  | None =>
      match s with
      | EmptyString => None
      | String _ s' => search_uri scheme s'
      end
  end.

Definition search_file (s : string) : option string := search_uri "file://" s.
Definition search_trash (s : string) : option string := search_uri "trash:/" s.

(** ** [posixpath.dirname], as the standard library defines it *)

(** [p[:p.rfind(sep) + 1]]: the prefix of [p] through its last slash, empty
    when [p] has no slash. *)
Fixpoint head_of (p : string) : string :=
  match p with
  | EmptyString => EmptyString
  | String c p' =>
      let h := head_of p' in
      if is_empty h
      then (if ascii_eqb c slash then chr c else EmptyString)
      else String c h
  end.

(** [head == sep * len(head)]. *)
Fixpoint all_slash (s : string) : bool :=
  match s with
  | EmptyString => true
  | String c s' => ascii_eqb c slash && all_slash s'
  end.

(** [head.rstrip(sep)]. *)
Fixpoint rstrip_slash (s : string) : string :=
  match s with
  | EmptyString => EmptyString
  | String c s' =>
      let r := rstrip_slash s' in
      if is_empty r && ascii_eqb c slash then EmptyString else String c r
  end.

Definition dirname (p : string) : string :=
  let head := head_of p in
  if negb (is_empty head) && negb (all_slash head)
  then rstrip_slash head
  else head.

(** ** Exceptions *)

Inductive exn : Type :=
| IndexError        (* list index out of range *)
| AttributeError    (* attribute access on None *)
| ValueError        (* list.index of an absent element; int of too many digits *)
| OSError.          (* subprocess.Popen could not start the program *)

Inductive result (A : Type) : Type :=
| Ok (a : A)
| Raise (e : exn).
Arguments Ok {A} a.
Arguments Raise {A} e.

#[global] Instance result_ret : MRet result := fun A a => Ok a.
#[global] Instance result_bind : MBind result := fun A B f m =>
  match m with
  | Ok a => f a
  | Raise e => Raise e
  end.

(** The most digits [int] converts, [sys.get_int_max_str_digits()] as the
    interpreter sets it. *)
Definition int_max_str_digits : nat := 4300.

(** [int(ds)] for a run of digits [ds]: [ValueError] when the run is longer
    than the interpreter allows, the decimal value otherwise. *)
Definition int_py (ds : string) : result Z :=
  if (int_max_str_digits <? String.length ds)%nat then Raise ValueError
  else Ok (int_of ds).

(** [l.index(x)]: the position of the first element equal to [x]. *)
Fixpoint list_index (x : string) (l : list string) : result nat :=
  match l with
  | [] => Raise ValueError
  | y :: l' => if bool_decide (y = x) then Ok O else i ← list_index x l'; Ok (S i)
  end.

(** [l[i]] for [i >= 0]. *)
Definition item (l : list string) (i : nat) : result string :=
  match nth_error l i with
  | Some x => Ok x
  | None => Raise IndexError
  end.

(** ** The monitor object and the parsed event *)

Inductive State : Type :=
| InitialState
| WaitingForNewDirState
| SoundPlayedState.

#[global] Instance State_eq_dec : EqDecision State.
Proof. solve_decision. Defined.

(** The fields of [DolphinMonitor] that the monitored behaviour reads or
    writes.  [process] is the handle of the running [dbus-monitor], given as
    the number of the spawn it came from. *)
Record DolphinMonitor : Type := mkMonitor {
  debug : bool;
  app_name : string;
  process : option nat;
  state : State;
  last_directory : option string
}.

(** The dictionary [app_call] built by [extract_app_event]. *)
Record AppCall : Type := mkCall {
  application : option string;
  app_uint : option Z;
  file_path : option string;
  file_uint : option Z
}.

Definition set_application (v : option string) (c : AppCall) : AppCall :=
  mkCall v (app_uint c) (file_path c) (file_uint c).
Definition set_app_uint (v : option Z) (c : AppCall) : AppCall :=
  mkCall (application c) v (file_path c) (file_uint c).
Definition set_file_path (v : option string) (c : AppCall) : AppCall :=
  mkCall (application c) (app_uint c) v (file_uint c).
Definition set_file_uint (v : option Z) (c : AppCall) : AppCall :=
  mkCall (application c) (app_uint c) (file_path c) v.

Definition set_process (v : option nat) (m : DolphinMonitor) : DolphinMonitor :=
  mkMonitor (debug m) (app_name m) v (state m) (last_directory m).
Definition set_state (v : State) (m : DolphinMonitor) : DolphinMonitor :=
  mkMonitor (debug m) (app_name m) (process m) v (last_directory m).
Definition set_last_directory (v : option string) (m : DolphinMonitor) : DolphinMonitor :=
  mkMonitor (debug m) (app_name m) (process m) (state m) v.

(** [__init__]: the state fields start as [InitialState] and [None]. *)
Definition init_monitor (dbg : bool) (name : string) : DolphinMonitor :=
  mkMonitor dbg name None InitialState None.

(** ** [extract_app_event] *)

Definition empty_call : AppCall := mkCall None None None None.

(** The needle of the first test of the loop: the word [string], a space and
    the application name in double quotes. *)
Definition app_needle (self : DolphinMonitor) : string :=
  "string " +:+ quoted (app_name self).

(** [lines[lines.index(data_line) + 1]]. *)
Definition line_after (lines : list string) (data_line : string) : result string :=
  i ← list_index data_line lines; item lines (i + 1).

(** One pass of the body of the [for] loop, on [data_line]. *)
Definition scan_line (self : DolphinMonitor) (lines : list string)
    (app_call : AppCall) (data_line : string) : result AppCall :=
  if contains (app_needle self) data_line then
    let app_call := set_application (Some (app_name self)) app_call in
    nxt ← line_after lines data_line;
    match search_uint32 nxt with
    | Some g => v ← int_py g; Ok (set_app_uint (Some v) app_call)
    | None => Ok app_call
    end
  else if contains "string" data_line then
    match search_file data_line with
    | None =>
        match search_trash data_line with
        | None => Ok app_call
        | Some g =>
            if is_empty (strip g) then Ok app_call
            else
              let app_call := set_file_path (Some ("trash://" +:+ strip g)) app_call in
              nxt ← line_after lines data_line;
              match search_uint32 nxt with
              | Some d => v ← int_py d; Ok (set_file_uint (Some v) app_call)
              | None => Raise AttributeError
              end
        end
    | Some g =>
        let app_call := set_file_path (Some (strip g)) app_call in
        nxt ← line_after lines data_line;
        match search_uint32 nxt with
        | Some d => v ← int_py d; Ok (set_file_uint (Some v) app_call)
        | None => Ok app_call
        end
    end
  else Ok app_call.

(** The [for] loop over the lines still to visit; [lines] is the whole
    block, which the body searches with [index]. *)
Fixpoint scan (self : DolphinMonitor) (lines todo : list string)
    (app_call : AppCall) : result AppCall :=
  match todo with
  | [] => Ok app_call
  | data_line :: todo' =>
      app_call' ← scan_line self lines app_call data_line;
      scan self lines todo' app_call'
  end.

(** The step after the loop: a path that is not a directory is replaced by
    its [dirname].  [isdir] is [os.path.isdir]. *)
Definition normalize (isdir : string -> bool) (app_call : AppCall) : AppCall :=
  match file_path app_call with
  | Some p => if negb (isdir p) then set_file_path (Some (dirname p)) app_call else app_call
  | None => app_call
  end.

Definition extract_app_event (isdir : string -> bool) (self : DolphinMonitor)
    (lines : list string) : result AppCall :=
  app_call ← scan self lines lines empty_call;
  Ok (normalize isdir app_call).

(** ** Effects *)

Inductive log_msg : Type :=
| MsgPlaying                       (* Playing sound effect *)
| MsgPlayingDueTo (e : AppCall)    (* Playing sound due to event *)
| MsgTransitioned (s : State) (e : AppCall)
| MsgBack (s : State)              (* Transitioned back to *)
| MsgProcessed (e : AppCall)       (* Processed event *)
| MsgChurn.                        (* Application instance change detected *)

(** What the program does to the outside, in order.  [Sleep ms] is an
    awaited [asyncio.sleep]: the caller is suspended for [ms] milliseconds.
    [SleepNotAwaited ms] is a call of [asyncio.sleep] whose coroutine object
    is dropped without being awaited: nothing is suspended. *)
Inductive effect : Type :=
| MixerInit
| MixerQuit
| PlaySound                        (* the thread started by play_sound *)
| LogInfo (m : log_msg)
| LogError (e : exn)
| Popen (n : nat)                  (* the n-th dbus-monitor is spawned *)
| Terminate (n : nat)
| Sleep (ms : N)
| SleepNotAwaited (ms : N).

(** Number of sounds started in a trace. *)
Fixpoint sounds (tr : list effect) : nat :=
  match tr with
  | [] => O
  | PlaySound :: tr' => S (sounds tr')
  | _ :: tr' => sounds tr'
  end.

(** Time spent suspended in a trace, in milliseconds. *)
Fixpoint elapsed (tr : list effect) : N :=
  match tr with
  | [] => 0%N
  | Sleep ms :: tr' => (ms + elapsed tr')%N
  | _ :: tr' => elapsed tr'
  end.

(** [logging.info(m)] under [if self.debug]. *)
Definition log_debug (self : DolphinMonitor) (m : log_msg) : list effect :=
  if debug self then [LogInfo m] else [].

(** ** The navigation state machine *)

(** [play_sound]. *)
Definition play_sound (self : DolphinMonitor) : list effect :=
  log_debug self MsgPlaying ++ [PlaySound].

(** The truth value of [event['application']]: [None] and the empty string
    are false. *)
Definition truthy (a : option string) : bool :=
  match a with
  | None => false
  | Some s => negb (is_empty s)
  end.

(** The test of the first [if] of [handle_app_event]: the event is dropped
    when it holds. *)
Definition rejected (self : DolphinMonitor) (event : AppCall) : bool :=
  negb (truthy (application event))
  || negb (bool_decide (application event = Some (app_name self))).

(** [handle_app_event]: the monitor after the call and the effects of the
    call. *)
Definition handle_app_event (self : DolphinMonitor) (event : AppCall)
    : DolphinMonitor * list effect :=
  if rejected self event then (self, [])
  else if bool_decide (state self = InitialState)
          && bool_decide (file_uint event = Some 3)
          && negb (bool_decide (file_path event = last_directory self)) then
    let self1 := set_last_directory (file_path event) self in
    let self2 := set_state SoundPlayedState self1 in
    (self2, play_sound self1 ++ log_debug self2 (MsgTransitioned (state self2) event))
  else if bool_decide (state self = WaitingForNewDirState)
          && (bool_decide (file_uint event = Some 1) || bool_decide (file_uint event = Some 3))
          && negb (bool_decide (last_directory self = file_path event)) then
    let self1 := set_last_directory (file_path event) self in
    let self2 := set_state SoundPlayedState self1 in
    (self2, log_debug self1 (MsgPlayingDueTo event) ++ play_sound self1
            ++ log_debug self2 (MsgTransitioned (state self2) event))
  else if bool_decide (state self = SoundPlayedState) then
    let self1 := set_state InitialState self in
    (self1, log_debug self1 (MsgBack (state self1)))
  else (self, []).

(** A sequence of calls of [handle_app_event], in order. *)
Fixpoint handle_all (self : DolphinMonitor) (events : list AppCall)
    : DolphinMonitor * list effect :=
  match events with
  | [] => (self, [])
  | e :: events' =>
      let '(self1, tr1) := handle_app_event self e in
      let '(self2, tr2) := handle_all self1 events' in
      (self2, tr1 ++ tr2)
  end.

(** ** The process watchdog *)

(** The two set differences and the test [closed_pids or new_pids] of
    [monitor]: a set is true when it is not empty. *)
Definition new_pids (known current : gset Z) : gset Z := current ∖ known.
Definition closed_pids (known current : gset Z) : gset Z := known ∖ current.

Definition nonempty (s : gset Z) : bool := negb (bool_decide (s = ∅)).

Definition has_churn (known current : gset Z) : bool :=
  nonempty (closed_pids known current) || nonempty (new_pids known current).

(** ** The outside world *)

(** What the operating system answers: [isdir] is [os.path.isdir],
    [spawn_ok n] tells whether the [n]-th call of [subprocess.Popen] starts
    [dbus-monitor] or raises, [stdout_of n] is the lines that the
    subprocess of the [n]-th call prints before its output ends, [pids_at k]
    the result of the [k]-th call of [get_app_pids]. *)
Record World : Type := mkWorld {
  isdir : string -> bool;
  spawn_ok : nat -> bool;
  stdout_of : nat -> list string;
  pids_at : nat -> gset Z
}.

(** How far the program has consumed the world: the number of calls of
    [subprocess.Popen], the number of process-table queries made, and the
    lines of the current subprocess not read yet. *)
Record Runtime : Type := mkRuntime {
  spawned : nat;
  polled : nat;
  pipe : list string
}.

Definition start_runtime : Runtime := mkRuntime O O [].

(** [self.process.stdout.readline()]: the next line, or the empty string
    once the output has ended. *)
Definition readline (rt : Runtime) : string * Runtime :=
  match pipe rt with
  | [] => (EmptyString, rt)
  | l :: rest => (l, mkRuntime (spawned rt) (polled rt) rest)
  end.

(** [self.get_app_pids()]. *)
Definition get_app_pids (w : World) (rt : Runtime) : gset Z * Runtime :=
  (pids_at w (polled rt), mkRuntime (spawned rt) (S (polled rt)) (pipe rt)).

(** ** [monitor] *)

(** The inner [while True] of [monitor]: the lines appended to [call_data],
    the line kept in [cached_method_call], and the lines left unread.
    [None] when no later line contains [method call]: [readline] then
    returns the empty string for ever and the loop does not end. *)
Fixpoint read_block (unread : list string)
    : option (list string * string * list string) :=
  match unread with
  | [] => None
  | sub_line :: rest =>
      if contains "method call" sub_line then Some ([], sub_line, rest)
      else
        match read_block rest with
        | Some (more, cached, rest') => Some (sub_line :: more, cached, rest')
        | None => None
        end
  end.

(** Where the coroutine [monitor] stands. *)
Inductive Pc : Type :=
| Entering     (* monitor() was called; its first statement is next *)
| Looping (known_app_pids : gset Z) (cached_method_call : string)
               (* at the top of the outer while True *)
| Stuck        (* inside the inner while True, past the end of the output *)
| Raised (e : exn).

Record Config : Type := mkConfig {
  pc : Pc;
  self : DolphinMonitor;
  rt : Runtime;
  trace : list effect
}.

(** The statements of [monitor] before its loop.  When [subprocess.Popen]
    raises, [self.process] is not assigned and the error leaves
    [monitor]. *)
Definition enter (w : World) (c : Config) : Config :=
  let n := spawned (rt c) in
  if spawn_ok w n then
    let rt1 := mkRuntime (S n) (polled (rt c)) (stdout_of w n) in
    let self1 := set_process (Some n) (self c) in
    let '(known_app_pids, rt2) := get_app_pids w rt1 in
    mkConfig (Looping known_app_pids EmptyString) self1 rt2 (trace c ++ [Popen n])
  else
    mkConfig (Raised OSError) (self c)
             (mkRuntime (S n) (polled (rt c)) (pipe (rt c))) (trace c).

(** The branch taken on churn, up to the recursive call of [monitor]. *)
Definition restart (c : Config) (rt2 : Runtime) : Config :=
  let tr := log_debug (self c) MsgChurn ++ [Sleep 500] in
  match process (self c) with
  | Some n =>
      mkConfig Entering (set_process None (self c)) rt2
               (trace c ++ tr ++ [Terminate n; Sleep 100])
  | None => mkConfig Entering (self c) rt2 (trace c ++ tr)
  end.

(** One pass of the outer [while True]. *)
Definition iteration (w : World) (c : Config)
    (known_app_pids : gset Z) (cached_method_call : string) : Config :=
  let '(line, rt1) :=
    if negb (is_empty cached_method_call) then (cached_method_call, rt c)
    else readline (rt c) in
  let '(current_app_pids, rt2) := get_app_pids w rt1 in
  if has_churn known_app_pids current_app_pids then restart c rt2
  else if contains "method call" line then
    match read_block (pipe rt2) with
    | None => mkConfig Stuck (self c) (mkRuntime (spawned rt2) (polled rt2) []) (trace c)
    | Some (more, cached, rest) =>
        let call_data := line :: more in
        let rt3 := mkRuntime (spawned rt2) (polled rt2) rest in
        let tr := trace c ++ [Sleep 30] in
        match extract_app_event (isdir w) (self c) call_data with
        | Raise e => mkConfig (Raised e) (self c) rt3 tr
        | Ok event =>
            let '(self1, tr1) := handle_app_event (self c) event in
            mkConfig (Looping known_app_pids cached) self1 rt3
                     (tr ++ log_debug (self c) (MsgProcessed event) ++ tr1)
        end
    end
  else mkConfig (Looping known_app_pids EmptyString) (self c) rt2 (trace c).

Definition step (w : World) (c : Config) : Config :=
  match pc c with
  | Entering => enter w c
  | Looping known_app_pids cached_method_call =>
      iteration w c known_app_pids cached_method_call
  | Stuck => c
  | Raised _ => c
  end.

(** [fuel] steps of [monitor]. *)
Fixpoint run (w : World) (fuel : nat) (c : Config) : Config :=
  match fuel with
  | O => c
  | S fuel' => run w fuel' (step w c)
  end.

(** ** [main] *)

Record Args : Type := mkArgs {
  sound_path : string;
  arg_app_name : string;
  arg_debug : bool
}.


(** The handler of [except Exception] in [main], up to the recursive call:
    the error is logged, then [asyncio.sleep(5)] is called without [await]
    from a plain function, which builds a coroutine object and drops it. *)
Definition on_exception (e : exn) : list effect :=
  [LogError e; SleepNotAwaited 5000].

(** The trace of [main] when each [asyncio.run] is followed for [fuel]
    steps and [main] calls itself at most [depth] times.  Without a signal
    [main] returns only after a nested [main] has returned, so the [finally]
    clause is reached by no trace given here. *)
Fixpoint main (w : World) (args : Args) (depth fuel : nat) (rt0 : Runtime)
    : list effect :=
  let monitor := init_monitor (arg_debug args) (arg_app_name args) in
  let c := run w fuel (mkConfig Entering monitor rt0 [MixerInit]) in
  match pc c with
  | Raised e =>
      match depth with
      | O => trace c ++ on_exception e
      | S depth' => trace c ++ on_exception e ++ main w args depth' fuel (rt c)
      end
  | _ => trace c
  end.

(** ** The branches of the loop of [extract_app_event], as predicates *)

(** The line reaches the [elif] branch: it is not an application line and
    contains the word [string]. *)
Definition path_candidate (self : DolphinMonitor) (l : string) : bool :=
  negb (contains (app_needle self) l) && contains "string" l.

(** The loop assigns [file_path] on this line: a path candidate on which
    the [file://] pattern matches, or else the [trash:/] pattern matches
    with a body that is not blank. *)
Definition assigns_path (self : DolphinMonitor) (l : string) : bool :=
  path_candidate self l &&
  match search_file l with
  | Some _ => true
  | None =>
      match search_trash l with
      | Some g => negb (is_empty (strip g))
      | None => false
      end
  end.

(** The line is matched as a trash path with body [body]. *)
Definition trash_line (self : DolphinMonitor) (l body : string) : Prop :=
  path_candidate self l = true
  ∧ search_file l = None
  ∧ search_trash l = Some body
  ∧ is_empty (strip body) = false.

(** What the step after the loop makes of a path. *)
Definition normalized (isdir : string -> bool) (p : string) : string :=
  if isdir p then p else dirname p.

(** The suspensions that [monitor] asks for: the debounce of 30 ms, the
    grace period of 100 ms and the settle delay of 500 ms. *)
Definition monitor_sleep (e : effect) : Prop :=
  match e with
  | Sleep ms => ms = 30%N ∨ ms = 100%N ∨ ms = 500%N
  | _ => True
  end.

(** ** [get_app_pids] over a process table *)

(** An entry of [psutil.process_iter(attrs=['pid', 'name'])]: the [info]
    dictionary of a process.  The name is [None] when the library could
    not read it. *)
Record Proc : Type := mkProc {
  proc_pid : Z;
  proc_name : option string
}.

(** The filter of the comprehension, [self.app_name in proc.info['name']]:
    a substring test; [None] when the name is [None], on which the test
    raises [TypeError]. *)
Definition name_matches (self : DolphinMonitor) (p : Proc) : option bool :=
  match proc_name p with
  | Some n => Some (contains (app_name self) n)
  | None => None
  end.

(** The set comprehension of [get_app_pids] over the process table
    [table]; [None] when the filter raises on some entry. *)
Fixpoint app_pids (self : DolphinMonitor) (table : list Proc) : option (gset Z) :=
  match table with
  | [] => Some ∅
  | p :: table' =>
      match name_matches self p with
      | None => None
      | Some b =>
          match app_pids self table' with
          | None => None
          | Some s => Some (if b then {[ proc_pid p ]} ∪ s else s)
          end
      end
  end.

(** ** Counting in traces *)

(** Subprocesses spawned, subprocesses terminated and errors logged. *)
Fixpoint popens (tr : list effect) : nat :=
  match tr with
  | [] => O
  | Popen _ :: tr' => S (popens tr')
  | _ :: tr' => popens tr'
  end.

Fixpoint terminates (tr : list effect) : nat :=
  match tr with
  | [] => O
  | Terminate _ :: tr' => S (terminates tr')
  | _ :: tr' => terminates tr'
  end.

Fixpoint errors (tr : list effect) : nat :=
  match tr with
  | [] => O
  | LogError _ :: tr' => S (errors tr')
  | _ :: tr' => errors tr'
  end.

(** Errors logged that come from a running monitor, not from a
    subprocess that could not be started. *)
Fixpoint run_errors (tr : list effect) : nat :=
  match tr with
  | [] => O
  | LogError OSError :: tr' => run_errors tr'
  | LogError _ :: tr' => S (run_errors tr')
  | _ :: tr' => run_errors tr'
  end.


(** One when the monitor holds the handle of a subprocess. *)
Definition live (m : DolphinMonitor) : nat :=
  match process m with Some _ => 1%nat | None => O end.

(** The monitor with the debug flag off, and a trace without the lines
    that [logging.info] writes. *)
Definition quiet (m : DolphinMonitor) : DolphinMonitor :=
  mkMonitor false (app_name m) (process m) (state m) (last_directory m).

Fixpoint no_info (tr : list effect) : list effect :=
  match tr with
  | [] => []
  | LogInfo _ :: tr' => no_info tr'
  | e :: tr' => e :: no_info tr'
  end.

(** The block is laid out as [dbus-monitor] prints the arguments of the
    call: every line with the word [string] is followed by a line with an
    unsigned integer, of no more digits than [int] converts. *)
Definition well_laid_out (lines : list string) : Prop :=
  ∀ i l, nth_error lines i = Some l → contains "string" l = true →
    ∃ nxt ds, nth_error lines (S i) = Some nxt ∧ search_uint32 nxt = Some ds
              ∧ (String.length ds ≤ int_max_str_digits)%nat.

(** What holds of every partial event during the loop: an integer is not
    negative and comes with the field it belongs to. *)
Definition coherent (m : DolphinMonitor) (a : AppCall) : Prop :=
  (∀ z, app_uint a = Some z → 0 ≤ z ∧ application a = Some (app_name m))
  ∧ (∀ z, file_uint a = Some z → 0 ≤ z ∧ is_Some (file_path a)).

(** The lines the loop has still to treat: the line held in
    [cached_method_call], if any, then the unread lines. *)
Definition pending (cached_method_call : string) (unread : list string)
    : list string :=
  if is_empty cached_method_call then unread else cached_method_call :: unread.

(** The subprocess account of a configuration: as many subprocesses were
    spawned as were terminated, plus the one whose handle the monitor
    holds; no handle is held at the entry of [monitor] and after a failed
    spawn, and one is held everywhere else. *)
Definition one_subprocess (c : Config) : Prop :=
  popens (trace c) = (terminates (trace c) + live (self c))%nat
  ∧ errors (trace c) = O
  ∧ match pc c with
    | Entering => process (self c) = None
    | Raised e => process (self c) = None ↔ e = OSError
    | _ => process (self c) ≠ None
    end.

(** [c'] is [c] run with the debug flag off. *)
Definition quiet_of (c c' : Config) : Prop :=
  pc c' = pc c ∧ rt c' = rt c ∧ self c' = quiet (self c)
  ∧ trace c' = no_info (trace c).


(** ** Sample inputs *)

Definition nl : string := chr newline.

(** The lines that [dbus-monitor] prints for one [RegisterResourceEvent]
    call: the header, then one line per argument. *)
Definition line_call : string :=
  "method call time=1700000000.1 sender=:1.42 -> destination=org.kde.ActivityManager serial=7 member=RegisterResourceEvent" +:+ nl.
Definition line_string (s : string) : string := "   string " +:+ quoted s +:+ nl.
Definition line_uint32 (n : string) : string := "   uint32 " +:+ n +:+ nl.
Definition line_int32 (n : string) : string := "   int32 " +:+ n +:+ nl.

Definition dolphin : DolphinMonitor := init_monitor false "dolphin".

Definition never_dir : string -> bool := fun _ => false.
Definition pictures_dir : string -> bool :=
  fun p => bool_decide (p = "/home/u/Pictures").

Definition block_pictures : list string :=
  [line_call; line_string "dolphin"; line_uint32 "7";
   line_string "file:///home/u/Pictures"; line_uint32 "3"].

(** A trash line followed by a line without an unsigned integer. *)
Definition block_trash_no_uint : list string :=
  [line_call; line_string "trash:/foo"; line_int32 "5"].

(** The application line is the last line of the block. *)
Definition block_app_last : list string :=
  [line_call; line_string "dolphin"].

(** A path line is the last line of the block. *)
Definition block_path_last : list string :=
  [line_call; line_string "dolphin"; line_uint32 "7";
   line_string "file:///home/u/Pictures"].

Definition block_trash_foo : list string :=
  [line_call; line_string "dolphin"; line_uint32 "7";
   line_string "trash:/foo"; line_uint32 "3"].

(** The same path line twice, followed by different integers. *)
Definition block_twice : list string :=
  [line_call; line_string "file:///home/u/a"; line_uint32 "1";
   line_string "file:///home/u/a"; line_uint32 "3"].

(** An event of the application with the empty name. *)
Definition nameless : DolphinMonitor := init_monitor false EmptyString.
Definition nameless_event : AppCall :=
  mkCall (Some EmptyString) (Some 7) (Some "/home/u/Pictures") (Some 3).

Definition pictures_event : AppCall :=
  mkCall (Some "dolphin") (Some 7) (Some "/home/u/Pictures") (Some 3).

(** One navigation, then a second instance of the application starts. *)
Definition world_churn : World :=
  mkWorld pictures_dir (fun _ => true)
    (fun n => match n with O => block_pictures ++ [line_call] | S _ => [] end)
    (fun k => if (k <? 2)%nat then {[ 100 ]} else {[ 100; 200 ]}).

(** A block with a trash line that no unsigned integer follows; the set of
    processes does not change. *)
Definition world_trash_error : World :=
  mkWorld never_dir (fun _ => true)
    (fun n => match n with O => block_trash_no_uint ++ [line_call] | S _ => [] end)
    (fun _ => {[ 100 ]}).

Definition default_args : Args := mkArgs "./navigation.wav" "dolphin" false.

Definition start_config (m : DolphinMonitor) : Config :=
  mkConfig Entering m start_runtime [].

(** A process table with a second program whose name holds the name of the
    application, and a program without a readable name. *)
Definition table_dolphin : list Proc :=
  [mkProc 1 (Some "systemd"); mkProc 100 (Some "dolphin");
   mkProc 101 (Some "dolphin-emu"); mkProc 7 (Some "bash")].

Definition proc_unnamed : Proc := mkProc 9 None.

Definition chatty : DolphinMonitor := init_monitor true "dolphin".

(** A block without string arguments. *)
Definition block_numbers : list string := [line_call; line_uint32 "7"].

(** Two navigations in a row, and the start of a third call. *)
Definition world_two_calls : World :=
  mkWorld pictures_dir (fun _ => true)
    (fun n => match n with
              | O => block_pictures ++ block_twice ++ [line_call]
              | S _ => []
              end)
    (fun _ => {[ 100 ]}).

(** Events that the state machine does not answer with a sound. *)
Definition sequence_one_event : AppCall :=
  mkCall (Some "dolphin") (Some 7) (Some "/home/u/Music") (Some 1).

Definition konsole_event : AppCall :=
  mkCall (Some "konsole") (Some 7) (Some "/home/u/Music") (Some 3).

(** A block whose only path line is the root of the trash. *)
Definition block_trash_root : list string :=
  [line_call; line_string "dolphin"; line_uint32 "7";
   line_string "trash:/"; line_uint32 "3"].

(** A block of the application with the empty name: the string argument
    is the empty string. *)
Definition block_nameless : list string :=
  [line_call; line_string EmptyString; line_uint32 "7"].

(** * Properties *)

(** ** Traces *)

Lemma sounds_app (tr1 tr2 : list effect) :
  sounds (tr1 ++ tr2) = (sounds tr1 + sounds tr2)%nat.
Proof.
  induction tr1 as [|e tr1 IH]; simpl; [reflexivity|].
  destruct e; simpl; rewrite IH; reflexivity.
Qed.

Lemma sounds_log_debug (m : DolphinMonitor) (msg : log_msg) :
  sounds (log_debug m msg) = 0%nat.
Proof. unfold log_debug. destruct (debug m); reflexivity. Qed.

Lemma sounds_play_sound (m : DolphinMonitor) : sounds (play_sound m) = 1%nat.
Proof. unfold play_sound. rewrite sounds_app, sounds_log_debug. reflexivity. Qed.

(** ** The navigation state machine *)

Lemma is_empty_true (s : string) : is_empty s = true ↔ s = EmptyString.
Proof. destruct s; simpl; split; congruence. Qed.

Lemma is_empty_false (s : string) : is_empty s = false ↔ s ≠ EmptyString.
Proof. destruct s; simpl; split; congruence. Qed.

(** The filter lets an event through exactly when its application is the
    configured name and that name is not empty. *)
Lemma rejected_false (m : DolphinMonitor) (e : AppCall) :
  rejected m e = false ↔
  application e = Some (app_name m) ∧ app_name m ≠ EmptyString.
Proof.
  unfold rejected.
  rewrite orb_false_iff, !negb_false_iff, bool_decide_eq_true.
  split.
  - intros [Ht He]. split; [exact He|].
    rewrite He in Ht. simpl in Ht.
    apply negb_true_iff, is_empty_false in Ht. exact Ht.
  - intros [He Hn]. split; [|exact He].
    rewrite He. simpl. apply negb_true_iff, is_empty_false. exact Hn.
Qed.

(** A rejected event changes nothing and has no effect. *)
Lemma handle_rejected (m : DolphinMonitor) (e : AppCall) :
  rejected m e = true → handle_app_event m e = (m, []).
Proof. intros H. unfold handle_app_event. rewrite H. reflexivity. Qed.

(** The first row of the transition table. *)
Lemma handle_initial_fires (m : DolphinMonitor) (e : AppCall) :
  rejected m e = false →
  state m = InitialState →
  file_uint e = Some 3 →
  file_path e ≠ last_directory m →
  handle_app_event m e =
    (set_state SoundPlayedState (set_last_directory (file_path e) m),
     play_sound (set_last_directory (file_path e) m)
     ++ log_debug (set_state SoundPlayedState (set_last_directory (file_path e) m))
                  (MsgTransitioned SoundPlayedState e)).
Proof.
  intros Hr Hs Hu Hp. unfold handle_app_event.
  rewrite Hr, Hs, Hu.
  rewrite !bool_decide_eq_true_2 by reflexivity.
  rewrite bool_decide_eq_false_2 by exact Hp.
  reflexivity.
Qed.

(** The third row of the transition table. *)
Lemma handle_sound_played (m : DolphinMonitor) (e : AppCall) :
  rejected m e = false →
  state m = SoundPlayedState →
  handle_app_event m e =
    (set_state InitialState m,
     log_debug (set_state InitialState m) (MsgBack InitialState)).
Proof.
  intros Hr Hs. unfold handle_app_event.
  rewrite Hr, Hs. reflexivity.
Qed.

(** No call of [handle_app_event] leads into [WaitingForNewDirState]. *)
Lemma handle_app_event_not_waiting (m : DolphinMonitor) (e : AppCall) :
  state m ≠ WaitingForNewDirState →
  state (handle_app_event m e).1 ≠ WaitingForNewDirState.
Proof.
  intros Hm. unfold handle_app_event.
  repeat case_match; simpl; congruence.
Qed.

Lemma handle_all_not_waiting (events : list AppCall) (m : DolphinMonitor) :
  state m ≠ WaitingForNewDirState →
  state (handle_all m events).1 ≠ WaitingForNewDirState.
Proof.
  revert m. induction events as [|e events IH]; intros m Hm; simpl; [exact Hm|].
  pose proof (handle_app_event_not_waiting m e Hm) as H1.
  destruct (handle_app_event m e) as [m1 tr1]. simpl in H1.
  specialize (IH m1 H1).
  destruct (handle_all m1 events) as [m2 tr2]. exact IH.
Qed.

(** C9: from the initial monitor state, after any finite sequence of calls
    of [handle_app_event] the state is [InitialState] or [SoundPlayedState],
    never [WaitingForNewDirState]. *)
Theorem waiting_state_unreachable (dbg : bool) (name : string) (events : list AppCall) :
  let m := (handle_all (init_monitor dbg name) events).1 in
  (state m = InitialState ∨ state m = SoundPlayedState)
  ∧ state m ≠ WaitingForNewDirState.
Proof.
  intros m.
  assert (state m ≠ WaitingForNewDirState) as H.
  { apply handle_all_not_waiting. simpl. discriminate. }
  split; [|exact H].
  destruct (state m); [left; reflexivity | contradiction | right; reflexivity].
Qed.

(** C5, as stated, fails for the empty application name: the event carries
    the configured name, sequence code 3 and a new path, and starts no
    sound. *)
Lemma cycle_fails_for_empty_name :
  application nameless_event = Some (app_name nameless)
  ∧ state nameless = InitialState
  ∧ file_uint nameless_event = Some 3
  ∧ file_path nameless_event ≠ last_directory nameless
  ∧ sounds (handle_app_event nameless nameless_event).2 = 0%nat
  ∧ state (handle_app_event nameless nameless_event).1 = InitialState.
Proof. repeat split; try reflexivity. discriminate. Qed.

(** C5, amended: for a non-empty configured application name, from
    [InitialState] with any last directory, an event of that application
    with sequence code 3 and a path other than the last directory starts
    one sound, moves to [SoundPlayedState] and records the path; any next
    event of that application then starts no sound and moves back to
    [InitialState], keeping the recorded path. *)
Theorem cycle_sound_then_cooldown (m : DolphinMonitor) (e1 e2 : AppCall) :
  app_name m ≠ EmptyString →
  state m = InitialState →
  application e1 = Some (app_name m) →
  file_uint e1 = Some 3 →
  file_path e1 ≠ last_directory m →
  application e2 = Some (app_name m) →
  let r1 := handle_app_event m e1 in
  let r2 := handle_app_event r1.1 e2 in
  sounds r1.2 = 1%nat
  ∧ state r1.1 = SoundPlayedState
  ∧ last_directory r1.1 = file_path e1
  ∧ sounds r2.2 = 0%nat
  ∧ state r2.1 = InitialState
  ∧ last_directory r2.1 = file_path e1.
Proof.
  intros Hn Hs Ha1 Hu Hp Ha2 r1 r2.
  assert (rejected m e1 = false) as Hr1 by (apply rejected_false; auto).
  subst r2 r1.
  rewrite (handle_initial_fires m e1 Hr1 Hs Hu Hp). simpl.
  rewrite handle_sound_played;
    [| apply rejected_false; simpl; auto | reflexivity].
  simpl. rewrite sounds_app, sounds_play_sound, !sounds_log_debug.
  repeat split.
Qed.

Lemma cycle_sound_then_cooldown_witness :
  let r1 := handle_app_event dolphin pictures_event in
  let r2 := handle_app_event r1.1 pictures_event in
  sounds r1.2 = 1%nat
  ∧ state r1.1 = SoundPlayedState
  ∧ last_directory r1.1 = file_path pictures_event
  ∧ sounds r2.2 = 0%nat
  ∧ state r2.1 = InitialState
  ∧ last_directory r2.1 = file_path pictures_event.
Proof.
  apply (cycle_sound_then_cooldown dolphin pictures_event pictures_event);
    try reflexivity; simpl; discriminate.
Defined.

(** C6, as stated, fails for the empty application name: two identical
    events with the configured name, sequence code 3 and a new path start
    no sound at all. *)
Lemma identical_events_silent_for_empty_name :
  application nameless_event = Some (app_name nameless)
  ∧ state nameless = InitialState
  ∧ file_uint nameless_event = Some 3
  ∧ file_path nameless_event ≠ last_directory nameless
  ∧ sounds (handle_all nameless [nameless_event; nameless_event]).2 = 0%nat.
Proof. repeat split; try reflexivity. discriminate. Qed.

(** C6, amended: for a non-empty configured application name, from
    [InitialState], two consecutive identical events of that application
    with sequence code 3 and a path other than the last directory start
    exactly one sound, and it is the first event that starts it. *)
Theorem identical_events_sound_once (m : DolphinMonitor) (e : AppCall) :
  app_name m ≠ EmptyString →
  state m = InitialState →
  application e = Some (app_name m) →
  file_uint e = Some 3 →
  file_path e ≠ last_directory m →
  sounds (handle_app_event m e).2 = 1%nat
  ∧ sounds (handle_app_event (handle_app_event m e).1 e).2 = 0%nat
  ∧ sounds (handle_all m [e; e]).2 = 1%nat.
Proof.
  intros Hn Hs Ha Hu Hp.
  assert (rejected m e = false) as Hr by (apply rejected_false; auto).
  simpl handle_all.
  rewrite (handle_initial_fires m e Hr Hs Hu Hp).
  cbn [fst snd].
  rewrite handle_sound_played;
    [| apply rejected_false; simpl; auto | reflexivity].
  cbn [fst snd].
  rewrite !sounds_app, sounds_play_sound, !sounds_log_debug.
  repeat split.
Qed.

Lemma identical_events_sound_once_witness :
  sounds (handle_app_event dolphin pictures_event).2 = 1%nat
  ∧ sounds (handle_app_event (handle_app_event dolphin pictures_event).1
                             pictures_event).2 = 0%nat
  ∧ sounds (handle_all dolphin [pictures_event; pictures_event]).2 = 1%nat.
Proof.
  apply (identical_events_sound_once dolphin pictures_event);
    try reflexivity; simpl; discriminate.
Defined.

(** ** The process watchdog *)

Lemma nonempty_true (s : gset Z) : nonempty s = true ↔ s ≠ ∅.
Proof.
  unfold nonempty. rewrite negb_true_iff, bool_decide_eq_false. reflexivity.
Qed.

Lemma nonempty_elem (s : gset Z) : nonempty s = true ↔ ∃ p, p ∈ s.
Proof.
  rewrite nonempty_true. split.
  - apply set_choose_L.
  - intros [p Hin] ->. set_solver.
Qed.

(** C7: churn is detected exactly when the symmetric difference of the
    previous and the current set of process identifiers is not empty, that
    is, when some process ended or started; previous {1,2} with current
    {1,3} gives true, previous {1,2} with current {1,2} gives false. *)
Theorem has_churn_iff_symmetric_difference :
  (∀ previous current : gset Z,
      has_churn previous current = true
      ↔ (previous ∖ current) ∪ (current ∖ previous) ≠ ∅)
  ∧ (∀ previous current : gset Z,
      has_churn previous current = true
      ↔ ∃ p, (p ∈ previous ∧ p ∉ current) ∨ (p ∈ current ∧ p ∉ previous))
  ∧ has_churn {[ 1; 2 ]} {[ 1; 3 ]} = true
  ∧ has_churn {[ 1; 2 ]} {[ 1; 2 ]} = false.
Proof.
  split; [|split; [|split; reflexivity]].
  - intros previous current. unfold has_churn, closed_pids, new_pids.
    rewrite orb_true_iff, !nonempty_true, empty_union_L.
    split.
    + intros [H|H] [H1 H2]; contradiction.
    + intros H. destruct (decide (previous ∖ current = ∅)) as [E|E].
      * right. intros E2. apply H. split; assumption.
      * left. exact E.
  - intros previous current. unfold has_churn, closed_pids, new_pids.
    rewrite orb_true_iff, !nonempty_elem.
    split.
    + intros [[p Hin]|[p Hin]]; exists p; apply elem_of_difference in Hin; tauto.
    + intros [p [[H1 H2]|[H1 H2]]]; [left|right]; exists p;
        apply elem_of_difference; auto.
Qed.

(** ** The event parser *)

Lemma bind_Ok {A B : Type} (m : result A) (f : A → result B) (b : B) :
  m ≫= f = Ok b → ∃ a, m = Ok a ∧ f a = Ok b.
Proof.
  destruct m as [a|e]; unfold mbind, result_bind; intros H.
  - exists a. split; [reflexivity | exact H].
  - discriminate H.
Qed.

(** Takes apart a hypothesis saying that a computation returned. *)
Ltac returned H :=
  repeat match type of H with
  | _ ≫= _ = Ok _ =>
      let a := fresh "a" in let Ha := fresh "Ha" in
      apply bind_Ok in H as (a & Ha & H)
  | (if ?b then _ else _) = Ok _ => destruct b eqn:?
  | (match ?x with _ => _ end) = Ok _ => destruct x eqn:?
  | Raise _ = Ok _ => discriminate H
  end;
  try (injection H as H).

Lemma scan_app (m : DolphinMonitor) (lines xs ys : list string) (a : AppCall) :
  scan m lines (xs ++ ys) a = scan m lines xs a ≫= scan m lines ys.
Proof.
  revert a. induction xs as [|x xs IH]; intros a; simpl; [reflexivity|].
  destruct (scan_line m lines a x) as [a1|e]; unfold mbind, result_bind; simpl.
  - apply IH.
  - reflexivity.
Qed.

(** Each pass leaves [application] alone or sets it to the configured
    name. *)
Lemma scan_line_application (m : DolphinMonitor) (lines : list string)
    (a a' : AppCall) (l : string) :
  scan_line m lines a l = Ok a' →
  application a' = application a ∨ application a' = Some (app_name m).
Proof.
  unfold scan_line. intros H.
  returned H; subst a'; simpl; auto.
Qed.

Lemma scan_application (m : DolphinMonitor) (lines todo : list string)
    (a a' : AppCall) :
  application a = None ∨ application a = Some (app_name m) →
  scan m lines todo a = Ok a' →
  application a' = None ∨ application a' = Some (app_name m).
Proof.
  revert a. induction todo as [|l todo IH]; intros a Ha H; simpl in H.
  - injection H as <-. exact Ha.
  - apply bind_Ok in H as (a1 & H1 & H).
    apply (IH a1); [|exact H].
    apply scan_line_application in H1 as [->| ->]; auto.
Qed.

Lemma normalize_application (isdir : string → bool) (a : AppCall) :
  application (normalize isdir a) = application a.
Proof. unfold normalize. repeat case_match; reflexivity. Qed.

Lemma normalize_file_uint (isdir : string → bool) (a : AppCall) :
  file_uint (normalize isdir a) = file_uint a.
Proof. unfold normalize. repeat case_match; reflexivity. Qed.

Lemma normalize_file_path (isdir : string → bool) (a : AppCall) :
  file_path (normalize isdir a) = normalized isdir <$> file_path a.
Proof.
  unfold normalize, normalized.
  destruct (file_path a) as [p|] eqn:E; simpl; [|exact E].
  destruct (isdir p); simpl; [exact E | reflexivity].
Qed.

(** C10, as stated, fails for the empty application name: the parser
    returns an event whose [application] is present and is exactly the
    configured name, and the filter of [handle_app_event] drops it, which a
    presence check would not. *)
Lemma presence_check_differs_for_empty_name :
  ∃ e, extract_app_event never_dir nameless block_nameless = Ok e
       ∧ application e = Some (app_name nameless)
       ∧ application e ≠ None
       ∧ rejected nameless e = true
       ∧ handle_app_event nameless e = (nameless, []).
Proof.
  eexists. split; [vm_compute; reflexivity|].
  repeat split. discriminate.
Qed.

(** C10, amended: whenever [extract_app_event] returns, the [application]
    field of the event is [None] or exactly the configured application
    name, never another string.  So, for a configured name that is not
    empty, the filter of [handle_app_event] on parsed events decides as the
    test that the field is [None]; for any name it decides as its own
    truth-value test; and for the empty name it drops every parsed
    event. *)
Theorem application_none_or_app_name (isdir : string → bool) (m : DolphinMonitor)
    (lines : list string) (e : AppCall) :
  extract_app_event isdir m lines = Ok e →
  (application e = None ∨ application e = Some (app_name m))
  ∧ rejected m e = negb (truthy (application e))
  ∧ (app_name m ≠ EmptyString →
     rejected m e = bool_decide (application e = None))
  ∧ (app_name m = EmptyString → rejected m e = true).
Proof.
  unfold extract_app_event. intros H.
  apply bind_Ok in H as (a & Ha & H). injection H as <-.
  assert (application (normalize isdir a) = None
          ∨ application (normalize isdir a) = Some (app_name m)) as Happ.
  { rewrite normalize_application.
    apply (scan_application m lines lines empty_call); [left; reflexivity | exact Ha]. }
  split; [exact Happ|].
  unfold rejected.
  destruct Happ as [-> | ->]; cbn [truthy negb orb].
  - split; [reflexivity|]. split; intros _; reflexivity.
  - rewrite (bool_decide_eq_true_2 (Some (app_name m) = Some (app_name m)))
      by reflexivity.
    rewrite (bool_decide_eq_false_2 (Some (app_name m) = None)) by discriminate.
    cbn [negb]. rewrite orb_false_r.
    split; [reflexivity|]. split.
    + intros Hn. apply is_empty_false in Hn. rewrite Hn. reflexivity.
    + intros ->. reflexivity.
Qed.

Lemma application_none_or_app_name_witness :
  (application pictures_event = None
   ∨ application pictures_event = Some (app_name dolphin))
  ∧ rejected dolphin pictures_event = negb (truthy (application pictures_event))
  ∧ (app_name dolphin ≠ EmptyString →
     rejected dolphin pictures_event
     = bool_decide (application pictures_event = None))
  ∧ (app_name dolphin = EmptyString → rejected dolphin pictures_event = true).
Proof.
  apply (application_none_or_app_name pictures_dir dolphin block_pictures).
  vm_compute. reflexivity.
Defined.

(** The loop only looks up lines of the block, so [index] always finds its
    argument. *)
Lemma list_index_elem (x : string) (l : list string) :
  x ∈ l → ∃ i, list_index x l = Ok i.
Proof.
  induction l as [|y l IH]; intros Hin; simpl.
  - apply elem_of_nil in Hin. contradiction.
  - destruct (bool_decide (y = x)) eqn:E; [eexists; reflexivity|].
    apply bool_decide_eq_false in E.
    apply elem_of_cons in Hin as [->|Hin]; [contradiction|].
    destruct (IH Hin) as [i ->]. eexists. reflexivity.
Qed.

(** What the parts of the loop can raise. *)
Lemma list_index_raises (x : string) (l : list string) (e : exn) :
  list_index x l = Raise e → e = ValueError.
Proof.
  induction l as [|y l IH]; simpl; intros H.
  - injection H as <-. reflexivity.
  - destruct (bool_decide (y = x)); [discriminate H|].
    destruct (list_index x l) as [i|e']; unfold mbind, result_bind in H.
    + discriminate H.
    + injection H as <-. apply IH. reflexivity.
Qed.

Lemma line_after_raises (lines : list string) (l : string) (e : exn) :
  line_after lines l = Raise e → e = ValueError ∨ e = IndexError.
Proof.
  unfold line_after, item. intros H.
  destruct (list_index l lines) as [i|e'] eqn:E; unfold mbind, result_bind in H.
  - destruct (nth_error lines (i + 1)); [discriminate H|].
    injection H as <-. right. reflexivity.
  - injection H as <-. left. apply (list_index_raises l lines e' E).
Qed.

Lemma int_py_raises (ds : string) (e : exn) :
  int_py ds = Raise e → e = ValueError.
Proof.
  unfold int_py. destruct (_ <? _)%nat; intros H; [|discriminate H].
  injection H as <-. reflexivity.
Qed.

Lemma int_py_returns (ds : string) (v : Z) :
  int_py ds = Ok v → v = int_of ds.
Proof.
  unfold int_py. destruct (_ <? _)%nat; intros H; [discriminate H|].
  injection H as <-. reflexivity.
Qed.

(** The parser raises [IndexError], [AttributeError] or [ValueError], if
    anything. *)
Lemma scan_line_raises (m : DolphinMonitor) (lines : list string)
    (a : AppCall) (l : string) (e : exn) :
  scan_line m lines a l = Raise e → e ≠ OSError.
Proof.
  unfold scan_line, mbind, result_bind. intros H.
  repeat match type of H with
  | (if ?b then _ else _) = _ => destruct b
  | match ?x with _ => _ end = _ => destruct x eqn:?
  end;
  try discriminate H; injection H as <-;
  repeat match goal with
  | E : line_after _ _ = Raise _ |- _ => apply line_after_raises in E as [->| ->]
  | E : int_py _ = Raise _ |- _ => apply int_py_raises in E as ->
  end; discriminate.
Qed.

Lemma scan_raises (m : DolphinMonitor) (lines todo : list string)
    (a : AppCall) (e : exn) :
  scan m lines todo a = Raise e → e ≠ OSError.
Proof.
  revert a. induction todo as [|l todo IH]; intros a H; simpl in H; [discriminate H|].
  destruct (scan_line m lines a l) as [a1|e1] eqn:E1; unfold mbind, result_bind in H.
  - apply (IH a1 H).
  - injection H as <-. apply (scan_line_raises m lines a l e1 E1).
Qed.

Lemma extract_never_os_error (isdir : string → bool)
    (m : DolphinMonitor) (lines : list string) (e : exn) :
  extract_app_event isdir m lines = Raise e → e ≠ OSError.
Proof.
  unfold extract_app_event. intros H.
  destruct (scan m lines lines empty_call) as [a|e1] eqn:E1;
    unfold mbind, result_bind in H.
  - discriminate H.
  - injection H as <-. apply (scan_raises m lines lines empty_call e1 E1).
Qed.

(** For a configured name that is not empty, the truth-value test of the
    filter is the test that the field is not [None]. *)
Lemma truthy_is_some (m : DolphinMonitor) (e : AppCall) :
  app_name m ≠ EmptyString →
  application e = None ∨ application e = Some (app_name m) →
  truthy (application e) = bool_decide (application e ≠ None).
Proof.
  intros Hn [-> | ->]; unfold truthy.
  - symmetry. apply bool_decide_eq_false_2.
    intros H. apply H. reflexivity.
  - rewrite (bool_decide_eq_true_2 (Some (app_name m) ≠ None)) by discriminate.
    apply negb_true_iff, is_empty_false. exact Hn.
Qed.

(** A line on which the loop does not assign [file_path] leaves both path
    fields as they are. *)
Lemma scan_line_keeps_path (m : DolphinMonitor) (lines : list string)
    (a a' : AppCall) (l : string) :
  assigns_path m l = false →
  scan_line m lines a l = Ok a' →
  file_path a' = file_path a ∧ file_uint a' = file_uint a.
Proof.
  unfold assigns_path, path_candidate, scan_line. intros Hno H.
  destruct (contains (app_needle m) l) eqn:Happ; simpl in Hno.
  - returned H; subst a'; simpl; auto.
  - destruct (contains "string" l) eqn:Hstr; simpl in Hno.
    + destruct (search_file l) as [g|]; [discriminate Hno|].
      destruct (search_trash l) as [g|].
      * apply negb_false_iff in Hno. rewrite Hno in H.
        injection H as <-. auto.
      * injection H as <-. auto.
    + injection H as <-. auto.
Qed.

Lemma scan_keeps_path (m : DolphinMonitor) (lines todo : list string)
    (a a' : AppCall) :
  Forall (λ l, assigns_path m l = false) todo →
  scan m lines todo a = Ok a' →
  file_path a' = file_path a ∧ file_uint a' = file_uint a.
Proof.
  intros Hall. revert a.
  induction Hall as [|l todo Hl Hall IH]; intros a H; simpl in H.
  - injection H as <-. auto.
  - apply bind_Ok in H as (a1 & H1 & H).
    apply (scan_line_keeps_path m lines a a1 l Hl) in H1 as [E1 E2].
    apply IH in H as [-> ->]. auto.
Qed.

(** A trash line sets [file_path] to the tagged body. *)
Lemma scan_line_trash (m : DolphinMonitor) (lines : list string)
    (a a' : AppCall) (l body : string) :
  trash_line m l body →
  scan_line m lines a l = Ok a' →
  file_path a' = Some ("trash://" +:+ strip body).
Proof.
  unfold trash_line, path_candidate, scan_line.
  intros (Hc & Hf & Ht & Hb) H.
  apply andb_true_iff in Hc as [Happ Hstr].
  apply negb_true_iff in Happ.
  rewrite Happ, Hstr, Hf, Ht, Hb in H.
  returned H; subst a'; reflexivity.
Qed.

(** On a line that assigns [file_path], the integer found on the line that
    [line_after] returns becomes [file_uint]. *)
Lemma scan_line_file_uint (m : DolphinMonitor) (lines : list string)
    (a a' : AppCall) (l nxt d : string) :
  assigns_path m l = true →
  line_after lines l = Ok nxt →
  search_uint32 nxt = Some d →
  scan_line m lines a l = Ok a' →
  file_uint a' = Some (int_of d).
Proof.
  unfold assigns_path, path_candidate, scan_line. intros Hyes Hn Hd H.
  apply andb_true_iff in Hyes as [Hc Hyes].
  apply andb_true_iff in Hc as [Happ Hstr].
  apply negb_true_iff in Happ.
  rewrite Happ, Hstr, Hn in H. unfold mbind, result_bind in H.
  rewrite Hd in H.
  destruct (int_py d) as [v|e] eqn:Ev.
  - apply int_py_returns in Ev as ->.
    destruct (search_file l) as [g|].
    + injection H as <-. reflexivity.
    + destruct (search_trash l) as [g|]; [|discriminate Hyes].
      apply negb_true_iff in Hyes. rewrite Hyes in H.
      injection H as <-. reflexivity.
  - destruct (search_file l) as [g|]; [discriminate H|].
    destruct (search_trash l) as [g|]; [|discriminate Hyes].
    apply negb_true_iff in Hyes. rewrite Hyes in H. discriminate H.
Qed.

(** [index] finds the first copy of a line. *)
Lemma list_index_first (l : string) (pre post : list string) :
  l ∉ pre → list_index l (pre ++ l :: post) = Ok (length pre).
Proof.
  induction pre as [|x pre IH]; intros Hnot; simpl.
  - rewrite bool_decide_eq_true_2 by reflexivity. reflexivity.
  - apply not_elem_of_cons in Hnot as [Hne Hnot].
    rewrite bool_decide_eq_false_2 by congruence.
    rewrite (IH Hnot). reflexivity.
Qed.

(** Without an earlier copy, [line_after] is the line that follows. *)
Lemma line_after_first (l nxt : string) (pre post : list string) :
  l ∉ pre → line_after (pre ++ l :: nxt :: post) l = Ok nxt.
Proof.
  intros Hnot. unfold line_after.
  rewrite (list_index_first l pre (nxt :: post) Hnot).
  unfold mbind, result_bind, item.
  replace (length pre + 1)%nat with (length (pre ++ [l]) + 0)%nat
    by (rewrite length_app; simpl; lia).
  replace (pre ++ l :: nxt :: post) with ((pre ++ [l]) ++ nxt :: post)
    by (rewrite <- app_assoc; reflexivity).
  rewrite nth_error_app2 by lia.
  replace (length (pre ++ [l]) + 0 - length (pre ++ [l]))%nat with O by lia.
  reflexivity.
Qed.

(** The integer after the last matched path line becomes [file_uint] when
    no identical copy of that line occurs earlier in the block. *)
Lemma file_uint_without_earlier_copy (isdir : string → bool) (m : DolphinMonitor)
    (pre post : list string) (l nxt d : string) (e : AppCall) :
  assigns_path m l = true →
  l ∉ pre →
  search_uint32 nxt = Some d →
  Forall (λ x, assigns_path m x = false) (nxt :: post) →
  extract_app_event isdir m (pre ++ l :: nxt :: post) = Ok e →
  file_uint e = Some (int_of d).
Proof.
  intros Hl Hnot Hd Hpost H.
  unfold extract_app_event in H.
  apply bind_Ok in H as (a & Ha & H). injection H as <-.
  rewrite normalize_file_uint.
  rewrite scan_app in Ha. apply bind_Ok in Ha as (a1 & _ & Ha).
  simpl in Ha. apply bind_Ok in Ha as (a2 & H2 & Ha).
  apply (scan_keeps_path m (pre ++ l :: nxt :: post) (nxt :: post) a2 a Hpost)
    in Ha as [_ ->].
  apply (scan_line_file_uint m (pre ++ l :: nxt :: post) a1 a2 l nxt d Hl); auto.
  apply line_after_first. exact Hnot.
Qed.

(** *** [dirname] on a tagged trash path *)

Lemma head_of_slash (p : string) :
  head_of (String slash p) = String slash (head_of p).
Proof.
  simpl. destruct (head_of p) as [|c h]; reflexivity.
Qed.

Lemma head_of_cons (c c' : ascii) (p h : string) :
  head_of p = String c' h → head_of (String c p) = String c (String c' h).
Proof. intros E. simpl. rewrite E. reflexivity. Qed.

Lemma head_of_trash (b : string) :
  head_of ("trash://" +:+ b) = "trash://" +:+ head_of b.
Proof.
  cbn [String.append].
  repeat apply head_of_cons.
  apply head_of_slash.
Qed.

Lemma rstrip_slash_trash (s : string) :
  rstrip_slash ("trash:" +:+ s) = "trash:" +:+ rstrip_slash s.
Proof. simpl. rewrite !andb_false_r. reflexivity. Qed.

Lemma dirname_trash (b : string) :
  dirname ("trash://" +:+ b)
  = "trash:" +:+ rstrip_slash (String slash (String slash (head_of b))).
Proof.
  unfold dirname. rewrite head_of_trash.
  change ("trash://" +:+ head_of b)
    with ("trash:" +:+ String slash (String slash (head_of b))).
  rewrite rstrip_slash_trash. reflexivity.
Qed.

(** C3, as stated, fails: the block holds the trash path [trash:/foo], no
    directory of that name exists, and the returned path is [trash:], which
    is neither the tagged body nor a string with the [trash://] prefix. *)
Lemma trash_prefix_lost_example :
  trash_line dolphin (line_string "trash:/foo") "foo"
  ∧ ∃ e, extract_app_event never_dir dolphin block_trash_foo = Ok e
         ∧ file_path e = Some "trash:"
         ∧ file_path e ≠ Some ("trash://" +:+ strip "foo")
         ∧ startswith "trash://" (default EmptyString (file_path e)) = false.
Proof.
  split; [repeat split|].
  eexists. split; [vm_compute; reflexivity|].
  repeat split. discriminate.
Qed.

(** C3, amended: when the last line of a block on which the loop assigns a
    path is a trash line with a non-blank body, and the parser returns, the
    returned path is the trimmed body prefixed with [trash://] if the
    file-system query reports that string as a directory, and the
    [dirname] of that string otherwise; either way it begins with
    [trash:]. *)
Theorem trash_path_tagged_then_normalized (isdir : string → bool)
    (m : DolphinMonitor) (pre post : list string) (l body : string) (e : AppCall) :
  trash_line m l body →
  Forall (λ x, assigns_path m x = false) post →
  extract_app_event isdir m (pre ++ l :: post) = Ok e →
  let tagged := "trash://" +:+ strip body in
  file_path e = Some (if isdir tagged then tagged else dirname tagged)
  ∧ ∃ rest, file_path e = Some ("trash:" +:+ rest).
Proof.
  intros Hl Hpost H tagged.
  unfold extract_app_event in H.
  apply bind_Ok in H as (a & Ha & H). injection H as <-.
  rewrite normalize_file_path.
  rewrite scan_app in Ha. apply bind_Ok in Ha as (a1 & _ & Ha).
  simpl in Ha. apply bind_Ok in Ha as (a2 & H2 & Ha).
  apply (scan_keeps_path m (pre ++ l :: post) post a2 a Hpost) in Ha as [-> _].
  rewrite (scan_line_trash m (pre ++ l :: post) a1 a2 l body Hl H2).
  simpl. fold tagged. unfold normalized.
  split; [reflexivity|].
  destruct (isdir tagged).
  - exists (String slash (String slash (strip body))). reflexivity.
  - eexists. unfold tagged. rewrite dirname_trash. reflexivity.
Qed.

Lemma trash_path_tagged_then_normalized_witness :
  ∃ e, extract_app_event never_dir dolphin block_trash_foo = Ok e
       ∧ file_path e = Some (dirname "trash://foo")
       ∧ ∃ rest, file_path e = Some ("trash:" +:+ rest).
Proof.
  eexists. split; [vm_compute; reflexivity|].
  apply (trash_path_tagged_then_normalized never_dir dolphin
           [line_call; line_string "dolphin"; line_uint32 "7"]
           [line_uint32 "3"] (line_string "trash:/foo") "foo").
  - repeat split.
  - repeat constructor.
  - vm_compute. reflexivity.
Defined.

(** C4 on a block with the same path line twice: the integer after the
    second copy is 3, and the parser returns the integer after the first
    copy, 1. *)
Theorem duplicate_path_line_reads_first_copy :
  nth_error block_twice 3 = Some (line_string "file:///home/u/a")
  ∧ assigns_path dolphin (line_string "file:///home/u/a") = true
  ∧ int_of <$> (nth_error block_twice 4 ≫= search_uint32) = Some 3
  ∧ line_after block_twice (line_string "file:///home/u/a") = Ok (line_uint32 "1")
  ∧ ∃ e, extract_app_event never_dir dolphin block_twice = Ok e
         ∧ file_path e = Some "/home/u"
         ∧ file_uint e = Some 1.
Proof.
  repeat split. eexists. split; [vm_compute; reflexivity|]. split; reflexivity.
Qed.

(** C1 on three blocks: a trash line followed by a line without an unsigned
    integer makes the parser raise [AttributeError]; an application line or
    a path line at the end of the block makes it raise [IndexError]. *)
Theorem extract_app_event_raises (isdir : string → bool) :
  extract_app_event isdir dolphin block_trash_no_uint = Raise AttributeError
  ∧ extract_app_event isdir dolphin block_app_last = Raise IndexError
  ∧ extract_app_event isdir dolphin block_path_last = Raise IndexError.
Proof. repeat split. Qed.

(** ** The supervising loop *)










(** C8 on a run in which [monitor] raises: the error is logged, the call of
    [asyncio.sleep] is not awaited, and the next [DolphinMonitor] is built
    at once; the only time spent suspended in the whole trace is the 30 ms
    of the debounce. *)
Theorem fatal_error_restart_without_delay :
  pc (run world_trash_error 2 (start_config dolphin)) = Raised AttributeError
  ∧ main world_trash_error default_args 1 5 start_runtime
    = [MixerInit; Popen 0; Sleep 30]
      ++ [LogError AttributeError; SleepNotAwaited 5000]
      ++ [MixerInit; Popen 1]
  ∧ elapsed (main world_trash_error default_args 1 5 start_runtime) = 30%N
  ∧ ∀ e, elapsed (on_exception e) = 0%N.
Proof. vm_compute. repeat split. Qed.

(** *** No trace of [main] holds the five-second delay *)

Lemma monitor_sleep_log_debug (m : DolphinMonitor) (msg : log_msg) :
  Forall monitor_sleep (log_debug m msg).
Proof. unfold log_debug. destruct (debug m); repeat constructor. Qed.

Lemma monitor_sleep_play_sound (m : DolphinMonitor) :
  Forall monitor_sleep (play_sound m).
Proof.
  unfold play_sound. apply Forall_app. split.
  - apply monitor_sleep_log_debug.
  - repeat constructor.
Qed.

(** Splits a trace into its parts and settles each part. *)
Ltac sleeps :=
  repeat match goal with
  | |- Forall _ (_ ++ _) => apply Forall_app; split
  | |- Forall _ (_ :: _) => constructor
  | |- Forall _ [] => constructor
  | |- Forall _ (log_debug _ _) => apply monitor_sleep_log_debug
  | |- Forall _ (play_sound _) => apply monitor_sleep_play_sound
  | |- Forall _ _ => assumption
  | |- monitor_sleep _ => simpl; auto
  end.

Lemma monitor_sleep_handle (m : DolphinMonitor) (e : AppCall) :
  Forall monitor_sleep (handle_app_event m e).2.
Proof.
  unfold handle_app_event.
  repeat case_match; cbn [fst snd]; sleeps.
Qed.

Lemma monitor_sleep_step (w : World) (c : Config) :
  Forall monitor_sleep (trace c) → Forall monitor_sleep (trace (step w c)).
Proof.
  intros Hc. unfold step.
  destruct (pc c) as [|known cached| |e]; try exact Hc.
  - unfold enter, get_app_pids.
    destruct (spawn_ok w (spawned (rt c))); cbn [trace]; sleeps.
  - unfold iteration.
    destruct (if negb (is_empty cached) then (cached, rt c) else readline (rt c))
      as [line rt1].
    unfold get_app_pids.
    destruct (has_churn known (pids_at w (polled rt1))).
    + unfold restart. destruct (process (self c)); cbn [trace]; sleeps.
    + destruct (contains "method call" line); [|exact Hc].
      destruct (read_block _) as [[[more cached'] rest]|]; [|exact Hc].
      destruct (extract_app_event _ _ _) as [event|e]; cbn [trace].
      * pose proof (monitor_sleep_handle (self c) event) as Hh.
        destruct (handle_app_event (self c) event) as [self1 tr1].
        cbn [fst snd trace] in *. sleeps.
      * sleeps.
Qed.

Lemma monitor_sleep_run (w : World) (fuel : nat) (c : Config) :
  Forall monitor_sleep (trace c) → Forall monitor_sleep (trace (run w fuel c)).
Proof.
  revert c. induction fuel as [|fuel IH]; intros c Hc; simpl; [exact Hc|].
  apply IH, monitor_sleep_step, Hc.
Qed.

Lemma monitor_sleep_main (w : World) (args : Args) (depth fuel : nat) (rt0 : Runtime) :
  Forall monitor_sleep (main w args depth fuel rt0).
Proof.
  revert rt0. induction depth as [|depth IH]; intros rt0; simpl;
    match goal with
    | |- context [run w fuel ?c0] =>
        assert (Forall monitor_sleep (trace (run w fuel c0))) as Hrun
          by (apply monitor_sleep_run; cbn [trace]; sleeps);
        destruct (pc (run w fuel c0)); try exact Hrun
    end;
    unfold on_exception; sleeps; apply IH.
Qed.

(** Whatever the world, the arguments and the length of the run, [main] is
    never suspended for five seconds. *)
Lemma main_never_sleeps_five_seconds (w : World) (args : Args)
    (depth fuel : nat) (rt0 : Runtime) :
  Sleep 5000 ∉ main w args depth fuel rt0.
Proof.
  intros Hin.
  pose proof (monitor_sleep_main w args depth fuel rt0) as Hall.
  rewrite Forall_forall in Hall. apply Hall in Hin. simpl in Hin.
  destruct Hin as [H|[H|H]]; discriminate H.
Qed.

(** *** The state machine inside the loop *)

Lemma step_not_waiting (w : World) (c : Config) :
  state (self c) ≠ WaitingForNewDirState →
  state (self (step w c)) ≠ WaitingForNewDirState.
Proof.
  intros Hc. unfold step.
  destruct (pc c) as [|known cached| |e]; try exact Hc.
  { unfold enter, get_app_pids. destruct (spawn_ok w (spawned (rt c))); exact Hc. }
  unfold iteration.
  destruct (if negb (is_empty cached) then (cached, rt c) else readline (rt c))
    as [line rt1].
  unfold get_app_pids.
  destruct (has_churn known (pids_at w (polled rt1))).
  - unfold restart. destruct (process (self c)); exact Hc.
  - destruct (contains "method call" line); [|exact Hc].
    destruct (read_block _) as [[[more cached'] rest]|]; [|exact Hc].
    destruct (extract_app_event _ _ _) as [event|e]; [|exact Hc].
    pose proof (handle_app_event_not_waiting (self c) event Hc) as Hh.
    destruct (handle_app_event (self c) event) as [self1 tr1]. exact Hh.
Qed.

(** However long [monitor] runs, through restarts included, the state never
    becomes [WaitingForNewDirState]. *)
Lemma run_not_waiting (w : World) (fuel : nat) (dbg : bool) (name : string) :
  state (self (run w fuel (start_config (init_monitor dbg name))))
  ≠ WaitingForNewDirState.
Proof.
  assert (∀ c, state (self c) ≠ WaitingForNewDirState →
               state (self (run w fuel c)) ≠ WaitingForNewDirState) as H.
  { induction fuel as [|fuel IH]; intros c Hc; simpl; [exact Hc|].
    apply IH, step_not_waiting, Hc. }
  apply H. simpl. discriminate.
Qed.

(** * Further properties *)

(** ** [handle_app_event] *)

(** The three things a call can do: nothing at all, fire from a state other
    than [SoundPlayedState], or leave [SoundPlayedState] in silence. *)
Lemma handle_cases (m : DolphinMonitor) (e : AppCall) :
  handle_app_event m e = (m, [])
  ∨ (state m ≠ SoundPlayedState
     ∧ sounds (handle_app_event m e).2 = 1%nat
     ∧ state (handle_app_event m e).1 = SoundPlayedState
     ∧ last_directory (handle_app_event m e).1 = file_path e
     ∧ file_path e ≠ last_directory m
     ∧ (state m = WaitingForNewDirState ∨ file_uint e = Some 3))
  ∨ (state m = SoundPlayedState
     ∧ sounds (handle_app_event m e).2 = 0%nat
     ∧ state (handle_app_event m e).1 = InitialState
     ∧ last_directory (handle_app_event m e).1 = last_directory m).
Proof.
  unfold handle_app_event.
  destruct (rejected m e); [left; reflexivity|].
  destruct (state m) eqn:Hs; cbn [bool_decide decide_rel State_eq_dec andb].
  - rewrite (bool_decide_eq_true_2 (InitialState = InitialState)) by reflexivity.
    cbn [andb].
    case_bool_decide as Hu; cbn [andb].
    + case_bool_decide as Hp; cbn [negb].
      * rewrite (bool_decide_eq_false_2 (InitialState = WaitingForNewDirState))
          by discriminate.
        rewrite (bool_decide_eq_false_2 (InitialState = SoundPlayedState))
          by discriminate.
        left. reflexivity.
      * right. left. cbn [fst snd].
        rewrite sounds_app, sounds_play_sound, sounds_log_debug.
        repeat split; [discriminate | exact Hp | right; exact Hu].
    + rewrite (bool_decide_eq_false_2 (InitialState = WaitingForNewDirState))
        by discriminate.
      rewrite (bool_decide_eq_false_2 (InitialState = SoundPlayedState))
        by discriminate.
      left. reflexivity.
  - rewrite (bool_decide_eq_false_2 (WaitingForNewDirState = InitialState))
      by discriminate.
    rewrite (bool_decide_eq_true_2 (WaitingForNewDirState = WaitingForNewDirState))
      by reflexivity.
    rewrite (bool_decide_eq_false_2 (WaitingForNewDirState = SoundPlayedState))
      by discriminate.
    cbn [andb].
    destruct (bool_decide (file_uint e = Some 1) || bool_decide (file_uint e = Some 3));
      cbn [andb]; [|left; reflexivity].
    case_bool_decide as Hp; cbn [negb]; [left; reflexivity|].
    right. left. cbn [fst snd].
    rewrite !sounds_app, sounds_play_sound, !sounds_log_debug.
    repeat split; [discriminate | congruence | left; reflexivity].
  - rewrite (bool_decide_eq_false_2 (SoundPlayedState = InitialState))
      by discriminate.
    rewrite (bool_decide_eq_false_2 (SoundPlayedState = WaitingForNewDirState))
      by discriminate.
    rewrite (bool_decide_eq_true_2 (SoundPlayedState = SoundPlayedState))
      by reflexivity.
    cbn [andb]. right. right. cbn [fst snd].
    rewrite sounds_log_debug. repeat split.
Qed.

(** X1: a call starts a sound exactly when the event passes the filter,
    its path differs from the last directory, and either the state is
    [InitialState] with sequence code 3 or the state is
    [WaitingForNewDirState] with sequence code 1 or 3. *)
Theorem sound_iff_guard (m : DolphinMonitor) (e : AppCall) :
  sounds (handle_app_event m e).2 = 1%nat
  ↔ rejected m e = false
    ∧ file_path e ≠ last_directory m
    ∧ ((state m = InitialState ∧ file_uint e = Some 3)
       ∨ (state m = WaitingForNewDirState
          ∧ (file_uint e = Some 1 ∨ file_uint e = Some 3))).
Proof.
  unfold handle_app_event.
  destruct (rejected m e); [simpl; split; [discriminate | intros [H _]; discriminate H]|].
  destruct (state m) eqn:Hs.
  - rewrite (bool_decide_eq_true_2 (InitialState = InitialState)) by reflexivity.
    rewrite (bool_decide_eq_false_2 (InitialState = WaitingForNewDirState))
      by discriminate.
    rewrite (bool_decide_eq_false_2 (InitialState = SoundPlayedState))
      by discriminate.
    cbn [andb].
    case_bool_decide as Hu; cbn [andb].
    + case_bool_decide as Hp; cbn [negb fst snd].
      * simpl. split; [discriminate|]. intros (_ & Hne & _). contradiction.
      * rewrite sounds_app, sounds_play_sound, sounds_log_debug.
        split; [|reflexivity]. intros _. repeat split; auto.
    + simpl. split; [discriminate|].
      intros (_ & _ & [[_ H]|[H _]]); [contradiction | discriminate H].
  - rewrite (bool_decide_eq_false_2 (WaitingForNewDirState = InitialState))
      by discriminate.
    rewrite (bool_decide_eq_true_2 (WaitingForNewDirState = WaitingForNewDirState))
      by reflexivity.
    rewrite (bool_decide_eq_false_2 (WaitingForNewDirState = SoundPlayedState))
      by discriminate.
    cbn [andb].
    destruct (bool_decide (file_uint e = Some 1) || bool_decide (file_uint e = Some 3))
      eqn:Hu; cbn [andb].
    + apply orb_true_iff in Hu.
      rewrite !bool_decide_eq_true in Hu.
      case_bool_decide as Hp; cbn [negb fst snd].
      * simpl. split; [discriminate|]. intros (_ & Hne & _). congruence.
      * rewrite !sounds_app, sounds_play_sound, !sounds_log_debug.
        split; [|reflexivity]. intros _.
        repeat split; [congruence|]. right. split; [reflexivity | exact Hu].
    + apply orb_false_iff in Hu. rewrite !bool_decide_eq_false in Hu.
      simpl. split; [discriminate|].
      intros (_ & _ & [[H _]|[_ [H|H]]]); [discriminate H | tauto | tauto].
  - rewrite (bool_decide_eq_false_2 (SoundPlayedState = InitialState))
      by discriminate.
    rewrite (bool_decide_eq_false_2 (SoundPlayedState = WaitingForNewDirState))
      by discriminate.
    rewrite (bool_decide_eq_true_2 (SoundPlayedState = SoundPlayedState))
      by reflexivity.
    cbn [andb fst snd]. rewrite sounds_log_debug.
    split; [discriminate|].
    intros (_ & _ & [[H _]|[H _]]); discriminate H.
Qed.

(** X2: a call starts at most one sound, and [last_directory] changes
    exactly with a sound: either one sound is started, the state becomes
    [SoundPlayedState] and the path of the event, which differs from the
    last directory, is recorded; or no sound is started and
    [last_directory] stays as it is. *)
Theorem sound_records_directory (m : DolphinMonitor) (e : AppCall) :
  let r := handle_app_event m e in
  (sounds r.2 = 1%nat
   ∧ state r.1 = SoundPlayedState
   ∧ last_directory r.1 = file_path e
   ∧ file_path e ≠ last_directory m)
  ∨ (sounds r.2 = 0%nat ∧ last_directory r.1 = last_directory m).
Proof.
  intros r. subst r.
  destruct (handle_cases m e) as [H|[(_ & H1 & H2 & H3 & H4 & _)|(_ & H1 & _ & H3)]].
  - right. rewrite H. split; reflexivity.
  - left. auto.
  - right. auto.
Qed.

(** X3: an event whose application is not the configured name changes
    nothing and has no effect. *)
Theorem other_application_ignored (m : DolphinMonitor) (e : AppCall) :
  application e ≠ Some (app_name m) →
  handle_app_event m e = (m, []).
Proof.
  intros Hne. apply handle_rejected. unfold rejected.
  rewrite (bool_decide_eq_false_2 _ Hne). apply orb_true_r.
Qed.

Lemma other_application_ignored_witness :
  handle_app_event dolphin konsole_event = (dolphin, []).
Proof.
  apply (other_application_ignored dolphin konsole_event).
  simpl. discriminate.
Defined.

Lemma sounds_bound (events : list AppCall) (m : DolphinMonitor) :
  (2 * sounds (handle_all m events).2
   ≤ length events + (if bool_decide (state m = SoundPlayedState) then 0 else 1))%nat.
Proof.
  revert m. induction events as [|e events IH]; intros m.
  - simpl. lia.
  - cbn [handle_all length].
    pose proof (handle_cases m e) as Hc. specialize (IH (handle_app_event m e).1).
    destruct (handle_app_event m e) as [m1 tr1]. cbn [fst snd] in *.
    destruct (handle_all m1 events) as [m2 tr2]. cbn [fst snd] in *.
    rewrite sounds_app.
    destruct Hc as [Hc|[(Hs & H1 & H2 & _)|(Hs & H1 & H2 & _)]].
    + injection Hc as -> ->. simpl. lia.
    + rewrite H1. rewrite H2 in IH.
      rewrite (bool_decide_eq_true_2 (SoundPlayedState = SoundPlayedState)) in IH
        by reflexivity.
      rewrite (bool_decide_eq_false_2 _ Hs). lia.
    + rewrite H1. rewrite H2 in IH.
      rewrite (bool_decide_eq_false_2 (InitialState = SoundPlayedState)) in IH
        by discriminate.
      rewrite (bool_decide_eq_true_2 _ Hs). lia.
Qed.

(** X4: whatever the starting state and the events, at most every other
    event starts a sound: twice the number of sounds is at most the number
    of events plus one. *)
Theorem sounds_at_most_every_other_event (m : DolphinMonitor) (events : list AppCall) :
  (2 * sounds (handle_all m events).2 ≤ length events + 1)%nat.
Proof.
  pose proof (sounds_bound events m) as H.
  destruct (bool_decide (state m = SoundPlayedState)); lia.
Qed.

Lemma silent_without_code_three (events : list AppCall) (m : DolphinMonitor) :
  state m ≠ WaitingForNewDirState →
  Forall (λ e, file_uint e ≠ Some 3) events →
  sounds (handle_all m events).2 = 0%nat.
Proof.
  intros Hm Hall. revert m Hm.
  induction Hall as [|e events He Hall IH]; intros m Hm; [reflexivity|].
  cbn [handle_all].
  pose proof (handle_app_event_not_waiting m e Hm) as Hw.
  pose proof (handle_cases m e) as Hc.
  specialize (IH (handle_app_event m e).1 Hw).
  destruct (handle_app_event m e) as [m1 tr1]. cbn [fst snd] in *.
  destruct (handle_all m1 events) as [m2 tr2]. cbn [fst snd] in *.
  rewrite sounds_app, IH.
  destruct Hc as [Hc|[(_ & _ & _ & _ & _ & [Hs|Hu])|(_ & H1 & _)]].
  - injection Hc as _ ->. reflexivity.
  - contradiction.
  - contradiction.
  - rewrite H1. reflexivity.
Qed.

(** X5: from the initial monitor, events none of which has sequence code 3
    start no sound, however many they are: the branch for sequence code 1
    belongs to a state that is never reached. *)
Theorem initial_monitor_needs_code_three (dbg : bool) (name : string)
    (events : list AppCall) :
  Forall (λ e, file_uint e ≠ Some 3) events →
  sounds (handle_all (init_monitor dbg name) events).2 = 0%nat.
Proof.
  apply silent_without_code_three. simpl. discriminate.
Qed.

Lemma initial_monitor_needs_code_three_witness :
  sounds (handle_all dolphin [sequence_one_event; sequence_one_event]).2 = 0%nat.
Proof.
  apply (initial_monitor_needs_code_three false "dolphin"
           [sequence_one_event; sequence_one_event]).
  repeat constructor; simpl; discriminate.
Defined.

(** ** [extract_app_event] *)

Lemma startswith_app (p q s : string) :
  startswith (p +:+ q) s = true → startswith p s = true.
Proof.
  revert s. induction p as [|a p IH]; intros s H; [reflexivity|].
  destruct s as [|b s]; simpl in *; [discriminate H|].
  apply andb_true_iff in H as [H1 H2].
  rewrite H1. simpl. apply IH. exact H2.
Qed.

Lemma contains_app (p q s : string) :
  contains (p +:+ q) s = true → contains p s = true.
Proof.
  induction s as [|b s IH]; intros H.
  - simpl in *. rewrite orb_false_r in *. apply (startswith_app p q). exact H.
  - cbn [contains] in *. apply orb_true_iff in H as [H|H]; apply orb_true_iff.
    + left. apply (startswith_app p q). exact H.
    + right. apply IH. exact H.
Qed.

(** An application line holds the word [string]. *)
Lemma needle_has_string (m : DolphinMonitor) (l : string) :
  contains (app_needle m) l = true → contains "string" l = true.
Proof.
  apply (contains_app "string" (" " +:+ quoted (app_name m))).
Qed.

(** A line without the word [string] is passed over. *)
Lemma scan_line_skips (m : DolphinMonitor) (lines : list string)
    (a : AppCall) (l : string) :
  contains "string" l = false → scan_line m lines a l = Ok a.
Proof.
  intros H. unfold scan_line.
  destruct (contains (app_needle m) l) eqn:E.
  - apply needle_has_string in E. congruence.
  - rewrite H. reflexivity.
Qed.

(** X6: on a block none of whose lines holds the word [string], the parser
    returns the event with all four fields [None]; it does not raise and
    does not ask the file system. *)
Theorem block_without_strings (isdir : string → bool) (m : DolphinMonitor)
    (lines : list string) :
  Forall (λ l, contains "string" l = false) lines →
  extract_app_event isdir m lines = Ok empty_call.
Proof.
  intros Hall. unfold extract_app_event.
  assert (∀ todo a, Forall (λ l, contains "string" l = false) todo →
                    scan m lines todo a = Ok a) as Hscan.
  { intros todo a Htodo. induction Htodo as [|l todo Hl _ IH]; [reflexivity|].
    simpl. rewrite (scan_line_skips m lines a l Hl). exact IH. }
  rewrite (Hscan lines empty_call Hall). reflexivity.
Qed.

Lemma block_without_strings_witness :
  extract_app_event never_dir dolphin block_numbers = Ok empty_call.
Proof.
  apply (block_without_strings never_dir dolphin block_numbers).
  repeat constructor.
Defined.

(** *** The integers of an event *)

Lemma digit_value (c : ascii) :
  is_digit c = true → 0 ≤ Z.of_nat (nat_of_ascii c) - 48.
Proof.
  unfold is_digit. intros H. apply andb_true_iff in H as [H _].
  apply Nat.leb_le in H. lia.
Qed.

Lemma int_digits_take_digits (s : string) (acc : Z) :
  0 ≤ acc → 0 ≤ int_digits acc (take_digits s).
Proof.
  revert acc. induction s as [|c s IH]; intros acc Hacc; simpl; [exact Hacc|].
  destruct (is_digit c) eqn:E; simpl; [|exact Hacc].
  apply IH. pose proof (digit_value c E). lia.
Qed.

Lemma search_uint32_digits (s ds : string) :
  search_uint32 s = Some ds → ∃ t, ds = take_digits t.
Proof.
  induction s as [|c s IH]; intros H.
  - simpl in H. discriminate H.
  - cbn [search_uint32] in H.
    destruct (startswith "uint32 " (String c s)).
    + destruct (is_empty (take_digits (drop_str 7 (String c s)))).
      * apply IH. exact H.
      * injection H as <-. eexists. reflexivity.
    + apply IH. exact H.
Qed.

Lemma search_uint32_nonneg (s ds : string) :
  search_uint32 s = Some ds → 0 ≤ int_of ds.
Proof.
  intros H. apply search_uint32_digits in H as [t ->].
  apply int_digits_take_digits. lia.
Qed.

Lemma scan_line_coherent (m : DolphinMonitor) (lines : list string)
    (a a' : AppCall) (l : string) :
  coherent m a → scan_line m lines a l = Ok a' → coherent m a'.
Proof.
  unfold coherent, scan_line. intros [Ha Hf] H.
  returned H; subst a'; simpl;
    repeat match goal with
    | Hs : search_uint32 _ = Some _ |- _ => apply search_uint32_nonneg in Hs
    | Hi : int_py _ = Ok _ |- _ => apply int_py_returns in Hi as ->
    end;
    (split; intros z Hz);
    try (injection Hz as <-);
    try (apply Ha in Hz as [? ?]);
    try (apply Hf in Hz as [? ?]);
    split; eauto.
Qed.

Lemma scan_coherent (m : DolphinMonitor) (lines todo : list string)
    (a a' : AppCall) :
  coherent m a → scan m lines todo a = Ok a' → coherent m a'.
Proof.
  revert a. induction todo as [|l todo IH]; intros a Ha H; simpl in H.
  - injection H as <-. exact Ha.
  - apply bind_Ok in H as (a1 & H1 & H).
    apply (IH a1); [|exact H].
    apply (scan_line_coherent m lines a a1 l Ha H1).
Qed.

Lemma extract_coherent (isdir : string → bool) (m : DolphinMonitor)
    (lines : list string) (e : AppCall) :
  extract_app_event isdir m lines = Ok e → coherent m e.
Proof.
  unfold extract_app_event. intros H.
  apply bind_Ok in H as (a & Ha & H). injection H as <-.
  apply (scan_coherent m lines lines empty_call) in Ha.
  - destruct Ha as [H1 H2]. split.
    + intros z Hz. rewrite normalize_application.
      apply H1. unfold normalize in Hz. repeat case_match; exact Hz.
    + intros z Hz. rewrite normalize_file_uint in Hz.
      destruct (H2 z Hz) as [Hz0 [p Hp]]. split; [exact Hz0|].
      rewrite normalize_file_path, Hp. simpl. eexists. reflexivity.
  - split; intros z Hz; discriminate Hz.
Qed.

(** X7: the integers of a returned event are not negative. *)
Theorem parsed_integers_nonnegative (isdir : string → bool) (m : DolphinMonitor)
    (lines : list string) (e : AppCall) :
  extract_app_event isdir m lines = Ok e →
  0 ≤ default 0 (app_uint e) ∧ 0 ≤ default 0 (file_uint e).
Proof.
  intros H. destruct (extract_coherent isdir m lines e H) as [H1 H2].
  split.
  - destruct (app_uint e) as [z|]; simpl; [|lia]. apply (H1 z). reflexivity.
  - destruct (file_uint e) as [z|]; simpl; [|lia]. apply (H2 z). reflexivity.
Qed.

Lemma parsed_integers_nonnegative_witness :
  0 ≤ default 0 (app_uint pictures_event)
  ∧ 0 ≤ default 0 (file_uint pictures_event).
Proof.
  apply (parsed_integers_nonnegative pictures_dir dolphin block_pictures).
  vm_compute. reflexivity.
Defined.

(** X8: in a returned event an integer never stands alone: [file_uint] is
    set only together with [file_path], and [app_uint] only together with
    [application]. *)
Theorem integers_come_with_their_field (isdir : string → bool)
    (m : DolphinMonitor) (lines : list string) (e : AppCall) :
  extract_app_event isdir m lines = Ok e →
  (file_uint e = None ∨ is_Some (file_path e))
  ∧ (app_uint e = None ∨ application e = Some (app_name m)).
Proof.
  intros H. destruct (extract_coherent isdir m lines e H) as [H1 H2].
  split.
  - destruct (file_uint e) as [z|]; [right|left; reflexivity].
    apply (H2 z). reflexivity.
  - destruct (app_uint e) as [z|]; [right|left; reflexivity].
    apply (H1 z). reflexivity.
Qed.

Lemma integers_come_with_their_field_witness :
  (file_uint pictures_event = None ∨ is_Some (file_path pictures_event))
  ∧ (app_uint pictures_event = None
     ∨ application pictures_event = Some (app_name dolphin)).
Proof.
  apply (integers_come_with_their_field pictures_dir dolphin block_pictures).
  vm_compute. reflexivity.
Defined.

(** *** The path of an event *)

Lemma scan_line_file (m : DolphinMonitor) (lines : list string)
    (a a' : AppCall) (l g : string) :
  path_candidate m l = true →
  search_file l = Some g →
  scan_line m lines a l = Ok a' →
  file_path a' = Some (strip g).
Proof.
  unfold path_candidate, scan_line. intros Hc Hf H.
  apply andb_true_iff in Hc as [Happ Hstr].
  apply negb_true_iff in Happ.
  rewrite Happ, Hstr, Hf in H.
  returned H; subst a'; reflexivity.
Qed.

(** X9: when the last line of a block on which the loop assigns a path
    matches the [file://] pattern, and the parser returns, the returned
    path is the trimmed body of the match if the file system reports it as
    a directory, and its [dirname] otherwise. *)
Theorem file_path_is_directory_or_parent (isdir : string → bool)
    (m : DolphinMonitor) (pre post : list string) (l g : string) (e : AppCall) :
  path_candidate m l = true →
  search_file l = Some g →
  Forall (λ x, assigns_path m x = false) post →
  extract_app_event isdir m (pre ++ l :: post) = Ok e →
  file_path e = Some (if isdir (strip g) then strip g else dirname (strip g)).
Proof.
  intros Hc Hf Hpost H.
  unfold extract_app_event in H.
  apply bind_Ok in H as (a & Ha & H). injection H as <-.
  rewrite normalize_file_path.
  rewrite scan_app in Ha. apply bind_Ok in Ha as (a1 & _ & Ha).
  simpl in Ha. apply bind_Ok in Ha as (a2 & H2 & Ha).
  apply (scan_keeps_path m (pre ++ l :: post) post a2 a Hpost) in Ha as [-> _].
  rewrite (scan_line_file m (pre ++ l :: post) a1 a2 l g Hc Hf H2).
  reflexivity.
Qed.

Lemma file_path_is_directory_or_parent_witness :
  ∃ e, extract_app_event never_dir dolphin block_twice = Ok e
       ∧ file_path e = Some (dirname "/home/u/a").
Proof.
  eexists. split; [vm_compute; reflexivity|].
  apply (file_path_is_directory_or_parent never_dir dolphin
           [line_call; line_string "file:///home/u/a"; line_uint32 "1"]
           [line_uint32 "3"] (line_string "file:///home/u/a") "/home/u/a").
  - reflexivity.
  - reflexivity.
  - repeat constructor.
  - vm_compute. reflexivity.
Defined.

(** X10: when the loop assigns a path on no line of the block (no
    [file://] match, and no [trash:/] match with a body that is not blank),
    a returned event has neither path nor path integer, whatever integers
    the block holds. *)
Theorem no_path_line_no_path (isdir : string → bool) (m : DolphinMonitor)
    (lines : list string) (e : AppCall) :
  Forall (λ x, assigns_path m x = false) lines →
  extract_app_event isdir m lines = Ok e →
  file_path e = None ∧ file_uint e = None.
Proof.
  intros Hall H. unfold extract_app_event in H.
  apply bind_Ok in H as (a & Ha & H). injection H as <-.
  apply (scan_keeps_path m lines lines empty_call a Hall) in Ha as [Hp Hu].
  rewrite normalize_file_path, normalize_file_uint, Hp, Hu.
  split; reflexivity.
Qed.

Lemma no_path_line_no_path_witness :
  ∃ e, extract_app_event never_dir dolphin block_trash_root = Ok e
       ∧ file_path e = None ∧ file_uint e = None.
Proof.
  eexists. split; [vm_compute; reflexivity|].
  apply (no_path_line_no_path never_dir dolphin block_trash_root).
  - repeat constructor.
  - vm_compute. reflexivity.
Defined.

(** *** When the parser returns *)

Lemma list_index_nth (x : string) (l : list string) (j : nat) :
  list_index x l = Ok j → nth_error l j = Some x.
Proof.
  revert j. induction l as [|y l IH]; intros j H; simpl in H; [discriminate H|].
  case_bool_decide as E.
  - injection H as <-. subst y. reflexivity.
  - apply bind_Ok in H as (i & Hi & H). injection H as <-.
    simpl. apply IH. exact Hi.
Qed.

Lemma int_py_short (ds : string) :
  (String.length ds ≤ int_max_str_digits)%nat → int_py ds = Ok (int_of ds).
Proof.
  intros H. unfold int_py.
  destruct (int_max_str_digits <? String.length ds)%nat eqn:E; [|reflexivity].
  apply Nat.ltb_lt in E. lia.
Qed.

Lemma int_py_long (ds : string) :
  (int_max_str_digits < String.length ds)%nat → int_py ds = Raise ValueError.
Proof.
  intros H. unfold int_py.
  destruct (int_max_str_digits <? String.length ds)%nat eqn:E; [reflexivity|].
  apply Nat.ltb_ge in E. lia.
Qed.

Lemma line_after_laid_out (lines : list string) (l : string) :
  well_laid_out lines → l ∈ lines → contains "string" l = true →
  ∃ nxt ds, line_after lines l = Ok nxt ∧ search_uint32 nxt = Some ds
            ∧ int_py ds = Ok (int_of ds).
Proof.
  intros Hw Hin Hs.
  destruct (list_index_elem l lines Hin) as [j Hj].
  destruct (Hw j l (list_index_nth l lines j Hj) Hs) as (nxt & ds & Hn & Hd & Hlen).
  exists nxt, ds. split; [|split; [exact Hd | apply int_py_short; exact Hlen]].
  unfold line_after. rewrite Hj. unfold mbind, result_bind, item.
  rewrite Nat.add_1_r, Hn. reflexivity.
Qed.

Lemma scan_line_returns (m : DolphinMonitor) (lines : list string)
    (a : AppCall) (l : string) :
  well_laid_out lines → l ∈ lines → ∃ a', scan_line m lines a l = Ok a'.
Proof.
  intros Hw Hin. unfold scan_line.
  destruct (contains (app_needle m) l) eqn:Happ.
  - destruct (line_after_laid_out lines l Hw Hin (needle_has_string m l Happ))
      as (nxt & ds & -> & Hd & Hi).
    unfold mbind, result_bind. rewrite Hd, Hi. eexists. reflexivity.
  - destruct (contains "string" l) eqn:Hstr; [|eexists; reflexivity].
    destruct (line_after_laid_out lines l Hw Hin Hstr) as (nxt & ds & -> & Hd & Hi).
    unfold mbind, result_bind. rewrite Hd, Hi.
    repeat case_match; eexists; reflexivity.
Qed.

Lemma scan_returns (m : DolphinMonitor) (lines todo : list string) (a : AppCall) :
  well_laid_out lines → todo ⊆ lines → ∃ a', scan m lines todo a = Ok a'.
Proof.
  intros Hw. revert a. induction todo as [|l todo IH]; intros a Hsub; simpl.
  - eexists. reflexivity.
  - destruct (scan_line_returns m lines a l Hw) as [a1 ->].
    { apply Hsub. left. }
    unfold mbind, result_bind. apply IH.
    intros x Hx. apply Hsub. right. exact Hx.
Qed.

(** X11: on a block laid out as [dbus-monitor] prints a call, where every
    line with the word [string] is followed by a line with an unsigned
    integer of at most 4300 digits, the parser returns an event: it raises
    on no such block, with or without repeated lines. *)
Theorem well_laid_out_block_returns (isdir : string → bool) (m : DolphinMonitor)
    (lines : list string) :
  well_laid_out lines → ∃ e, extract_app_event isdir m lines = Ok e.
Proof.
  intros Hw. unfold extract_app_event.
  destruct (scan_returns m lines lines empty_call Hw) as [a ->].
  { intros x Hx. exact Hx. }
  eexists. reflexivity.
Qed.

Lemma well_laid_out_block_returns_witness :
  ∃ e, extract_app_event pictures_dir dolphin block_pictures = Ok e.
Proof.
  apply (well_laid_out_block_returns pictures_dir dolphin block_pictures).
  intros i l Hi Hs.
  do 5 (destruct i as [|i];
        [injection Hi as <-;
         first [discriminate Hs
               | eexists; eexists; split; [reflexivity|];
                 split; [reflexivity | vm_compute; lia]]|]).
  destruct i; discriminate Hi.
Defined.

(** ** [get_app_pids] and the churn test *)

Lemma app_pids_cons (m : DolphinMonitor) (q : Proc) (table : list Proc) (s : gset Z) :
  app_pids m (q :: table) = Some s →
  ∃ b s', name_matches m q = Some b ∧ app_pids m table = Some s'
          ∧ s = (if b then {[ proc_pid q ]} ∪ s' else s').
Proof.
  simpl. destruct (name_matches m q) as [b|]; [|discriminate].
  destruct (app_pids m table) as [s'|]; [|discriminate].
  intros H. injection H as <-. exists b, s'. auto.
Qed.

Lemma name_matches_true (m : DolphinMonitor) (q : Proc) :
  name_matches m q = Some true
  ↔ ∃ n, proc_name q = Some n ∧ contains (app_name m) n = true.
Proof.
  unfold name_matches. destruct (proc_name q) as [n|]; split.
  - intros H. injection H as H. exists n. auto.
  - intros (n' & Hn & Hc). injection Hn as <-. rewrite Hc. reflexivity.
  - discriminate.
  - intros (n' & Hn & _). discriminate Hn.
Qed.

(** X12: when [get_app_pids] returns, an identifier is in the result
    exactly when the table holds a process with that identifier whose name
    contains the application name; the match is by substring, not by
    equality. *)
Theorem app_pids_by_substring (m : DolphinMonitor) (table : list Proc) (s : gset Z) :
  app_pids m table = Some s →
  ∀ p, p ∈ s ↔ ∃ q n, q ∈ table ∧ proc_pid q = p
                      ∧ proc_name q = Some n ∧ contains (app_name m) n = true.
Proof.
  revert s. induction table as [|q table IH]; intros s H p.
  - injection H as <-. split.
    + intros Hp. apply elem_of_empty in Hp. contradiction.
    + intros (q & n & Hq & _). apply elem_of_nil in Hq. contradiction.
  - apply app_pids_cons in H as (b & s' & Hb & Hs' & ->).
    specialize (IH s' Hs' p). split.
    + intros Hp.
      assert (p ∈ s' ∨ (b = true ∧ p = proc_pid q)) as [Hin|[-> ->]].
      { destruct b; [|left; exact Hp].
        apply elem_of_union in Hp as [Hp|Hp]; [right|left; exact Hp].
        apply elem_of_singleton in Hp. auto. }
      * apply IH in Hin as (q' & n & Hq' & Hrest).
        exists q', n. split; [right; exact Hq' | exact Hrest].
      * apply name_matches_true in Hb as (n & Hn & Hc).
        exists q, n. split; [left|]. auto.
    + intros (q' & n & Hq' & Hpid & Hn & Hc).
      apply elem_of_cons in Hq' as [->|Hq'].
      * assert (name_matches m q = Some true) as Ht
          by (apply name_matches_true; eauto).
        rewrite Ht in Hb. injection Hb as <-.
        apply elem_of_union. left. apply elem_of_singleton. auto.
      * assert (p ∈ s') as Hin by (apply IH; exists q', n; auto).
        destruct b; [apply elem_of_union; right|]; exact Hin.
Qed.

Lemma app_pids_by_substring_witness :
  101 ∈ ({[ 100; 101 ]} : gset Z)
  ↔ ∃ q n, q ∈ table_dolphin ∧ proc_pid q = 101
           ∧ proc_name q = Some n ∧ contains (app_name dolphin) n = true.
Proof.
  apply (app_pids_by_substring dolphin table_dolphin).
  vm_compute. reflexivity.
Defined.

(** X13: [get_app_pids] raises exactly when the name of some process in the
    table is [None]. *)
Theorem app_pids_raises_iff_unnamed (m : DolphinMonitor) (table : list Proc) :
  app_pids m table = None ↔ ∃ q, q ∈ table ∧ proc_name q = None.
Proof.
  induction table as [|q table IH]; simpl.
  - split; [discriminate|]. intros (q & Hq & _).
    apply elem_of_nil in Hq. contradiction.
  - unfold name_matches. destruct (proc_name q) as [n|] eqn:Hn.
    + destruct (app_pids m table) as [s|].
      * split; [discriminate|]. intros (q' & Hq' & Hnone).
        apply elem_of_cons in Hq' as [->|Hq']; [congruence|].
        assert (Some s = None) as Habs by (apply IH; eauto).
        discriminate Habs.
      * split; [|reflexivity]. intros _.
        destruct (proj1 IH eq_refl) as (q' & Hq' & Hnone).
        exists q'. split; [right|]; assumption.
    + split; [|reflexivity]. intros _. exists q. split; [left|exact Hn].
Qed.

Lemma contains_empty (s : string) : contains EmptyString s = true.
Proof. destruct s; reflexivity. Qed.

(** X14: with the empty application name every process of the table is
    matched. *)
Theorem empty_name_matches_every_process (m : DolphinMonitor)
    (table : list Proc) (s : gset Z) :
  app_name m = EmptyString →
  app_pids m table = Some s →
  ∀ q, q ∈ table → proc_pid q ∈ s.
Proof.
  intros Hname. revert s. induction table as [|q table IH]; intros s H q' Hq'.
  - apply elem_of_nil in Hq'. contradiction.
  - apply app_pids_cons in H as (b & s' & Hb & Hs' & ->).
    unfold name_matches in Hb. destruct (proc_name q) as [n|]; [|discriminate Hb].
    rewrite Hname, contains_empty in Hb. injection Hb as <-.
    apply elem_of_union.
    apply elem_of_cons in Hq' as [->|Hq'].
    + left. apply elem_of_singleton. reflexivity.
    + right. apply (IH s' Hs' q' Hq').
Qed.

Lemma empty_name_matches_every_process_witness :
  proc_pid (mkProc 7 (Some "bash")) ∈ ({[ 1; 100; 101; 7 ]} : gset Z).
Proof.
  apply (empty_name_matches_every_process nameless table_dolphin).
  - reflexivity.
  - vm_compute. reflexivity.
  - do 3 right. left.
Defined.

Lemma has_churn_same (s : gset Z) : has_churn s s = false.
Proof.
  unfold has_churn, closed_pids, new_pids, nonempty.
  rewrite difference_diag_L.
  rewrite bool_decide_eq_true_2 by reflexivity. reflexivity.
Qed.

Lemma has_churn_grown (s : gset Z) (p : Z) :
  p ∉ s →
  has_churn s ({[ p ]} ∪ s) = true ∧ has_churn ({[ p ]} ∪ s) s = true.
Proof.
  intros Hp. unfold has_churn, closed_pids, new_pids.
  assert (nonempty (({[ p ]} ∪ s) ∖ s) = true) as H.
  { apply nonempty_elem. exists p. apply elem_of_difference. split; [|exact Hp].
    apply elem_of_union. left. apply elem_of_singleton. reflexivity. }
  rewrite H. split; [apply orb_true_r | reflexivity].
Qed.

(** A process put anywhere into the table adds its identifier to the
    result when its name matches, and nothing otherwise. *)
Lemma app_pids_insert (m : DolphinMonitor) (pre post : list Proc) (q : Proc)
    (b : bool) (known : gset Z) :
  app_pids m (pre ++ post) = Some known →
  name_matches m q = Some b →
  app_pids m (pre ++ q :: post)
  = Some (if b then {[ proc_pid q ]} ∪ known else known).
Proof.
  intros H Hq. revert known H.
  induction pre as [|x pre IH]; intros known H.
  - simpl in *. rewrite Hq, H. reflexivity.
  - change ((x :: pre) ++ post) with (x :: (pre ++ post)) in H.
    apply app_pids_cons in H as (b' & s' & Hb' & Hs' & ->).
    simpl. rewrite Hb', (IH s' Hs'). f_equal.
    destruct b, b'; try reflexivity.
    rewrite !(assoc_L (∪)), (comm_L (∪) {[ proc_pid x ]} {[ proc_pid q ]}).
    reflexivity.
Qed.

(** X15: a process whose name does not contain the application name can
    start (or end) anywhere in the process table without the churn test
    firing. *)
Theorem unrelated_process_is_no_churn (m : DolphinMonitor) (pre post : list Proc)
    (q : Proc) (n : string) (known : gset Z) :
  app_pids m (pre ++ post) = Some known →
  proc_name q = Some n →
  contains (app_name m) n = false →
  ∃ current, app_pids m (pre ++ q :: post) = Some current
             ∧ has_churn known current = false
             ∧ has_churn current known = false.
Proof.
  intros H Hn Hc. exists known.
  rewrite (app_pids_insert m pre post q false known H).
  - split; [reflexivity|]. split; apply has_churn_same.
  - unfold name_matches. rewrite Hn, Hc. reflexivity.
Qed.

Lemma unrelated_process_is_no_churn_witness :
  ∃ current,
    app_pids dolphin ([mkProc 100 (Some "dolphin")]
                      ++ mkProc 7 (Some "bash") :: []) = Some current
    ∧ has_churn {[ 100 ]} current = false
    ∧ has_churn current {[ 100 ]} = false.
Proof.
  apply (unrelated_process_is_no_churn dolphin [mkProc 100 (Some "dolphin")] []
           (mkProc 7 (Some "bash")) "bash" {[ 100 ]}).
  - vm_compute. reflexivity.
  - reflexivity.
  - reflexivity.
Defined.

(** X16: a process whose name contains the application name and whose
    identifier was not matched before makes the churn test fire when it
    starts, and again when it ends. *)
Theorem new_instance_is_churn (m : DolphinMonitor) (pre post : list Proc)
    (q : Proc) (n : string) (known : gset Z) :
  app_pids m (pre ++ post) = Some known →
  proc_name q = Some n →
  contains (app_name m) n = true →
  proc_pid q ∉ known →
  ∃ current, app_pids m (pre ++ q :: post) = Some current
             ∧ has_churn known current = true
             ∧ has_churn current known = true.
Proof.
  intros H Hn Hc Hnew. exists ({[ proc_pid q ]} ∪ known).
  rewrite (app_pids_insert m pre post q true known H).
  - split; [reflexivity|]. apply has_churn_grown. exact Hnew.
  - unfold name_matches. rewrite Hn, Hc. reflexivity.
Qed.

Lemma new_instance_is_churn_witness :
  ∃ current,
    app_pids dolphin ([mkProc 100 (Some "dolphin")]
                      ++ mkProc 101 (Some "dolphin-emu") :: []) = Some current
    ∧ has_churn {[ 100 ]} current = true
    ∧ has_churn current {[ 100 ]} = true.
Proof.
  apply (new_instance_is_churn dolphin [mkProc 100 (Some "dolphin")] []
           (mkProc 101 (Some "dolphin-emu")) "dolphin-emu" {[ 100 ]}).
  - vm_compute. reflexivity.
  - reflexivity.
  - reflexivity.
  - vm_compute. intros H. discriminate H.
Defined.

(** ** The loop of [monitor] *)

Lemma read_block_none (unread : list string) :
  read_block unread = None
  ↔ Forall (λ l, contains "method call" l = false) unread.
Proof.
  induction unread as [|l unread IH]; simpl.
  - split; [constructor | reflexivity].
  - destruct (contains "method call" l) eqn:E.
    + split; [discriminate|]. intros H. inversion H; congruence.
    + destruct (read_block unread) as [[[more cached] rest]|].
      * split; [discriminate|]. intros H. inversion H as [|? ? _ Hrest].
        apply IH in Hrest. discriminate Hrest.
      * split; [|reflexivity]. intros _. constructor; [exact E|].
        apply IH. reflexivity.
Qed.

Lemma read_block_some (unread more rest : list string) (cached : string) :
  read_block unread = Some (more, cached, rest) →
  unread = more ++ cached :: rest
  ∧ contains "method call" cached = true
  ∧ Forall (λ l, contains "method call" l = false) more.
Proof.
  revert more. induction unread as [|l unread IH]; intros more H; simpl in H.
  - discriminate H.
  - destruct (contains "method call" l) eqn:E.
    + injection H as <- <- <-. repeat split; [exact E | constructor].
    + destruct (read_block unread) as [[[more' cached'] rest']|]; [|discriminate H].
      injection H as <- <- <-.
      destruct (IH more' eq_refl) as (-> & Hc & Hall).
      repeat split; [exact Hc | constructor; assumption].
Qed.

Lemma read_block_finds (more rest : list string) (cached : string) :
  contains "method call" cached = true →
  Forall (λ l, contains "method call" l = false) more →
  read_block (more ++ cached :: rest) = Some (more, cached, rest).
Proof.
  intros Hc Hall. induction Hall as [|l more Hl _ IH]; simpl.
  - rewrite Hc. reflexivity.
  - rewrite Hl, IH. reflexivity.
Qed.

(** X17: the inner loop ends exactly when some unread line holds
    [method call], and it then splits the unread lines at the first such
    line without losing one: it returns the lines before that line as the
    block, that line as the line kept for the next pass, and the lines
    after it as the lines left unread.  When no unread line holds
    [method call] it does not end. *)
Theorem read_block_splits (unread more rest : list string) (cached : string) :
  (read_block unread = Some (more, cached, rest)
   ↔ unread = more ++ cached :: rest
     ∧ contains "method call" cached = true
     ∧ Forall (λ l, contains "method call" l = false) more)
  ∧ (Exists (λ l, contains "method call" l = true) unread
     ↔ ∃ more' cached' rest', read_block unread = Some (more', cached', rest'))
  ∧ (read_block unread = None
     ↔ Forall (λ l, contains "method call" l = false) unread).
Proof.
  split; [|split].
  - split; [apply read_block_some|].
    intros (-> & Hc & Hall). apply read_block_finds; assumption.
  - destruct (read_block unread) as [[[more' cached'] rest']|] eqn:E.
    + split; [intros _; eauto|]. intros _.
      apply read_block_some in E as (-> & Hc & _).
      apply Exists_app. right. left. exact Hc.
    + apply read_block_none in E. split.
      * intros Hex. apply Exists_exists in Hex as (l & Hin & Hl).
        rewrite Forall_forall in E. rewrite (E l Hin) in Hl. discriminate Hl.
      * intros (? & ? & ? & Habs). discriminate Habs.
  - apply read_block_none.
Qed.

(** X18: a call is handled only once the header of the next call has been
    read.  When the loop takes up a line with [method call] and no later
    line of the output holds [method call], the inner loop does not end:
    the block is never parsed, no sound is started, and no later pass
    changes anything. *)
Theorem last_block_is_never_handled (w : World) (c : Config) (known : gset Z)
    (cached header : string) (body : list string) (fuel : nat) :
  pc c = Looping known cached →
  pending cached (pipe (rt c)) = header :: body →
  contains "method call" header = true →
  Forall (λ l, contains "method call" l = false) body →
  has_churn known (pids_at w (polled (rt c))) = false →
  pc (step w c) = Stuck
  ∧ self (step w c) = self c
  ∧ trace (step w c) = trace c
  ∧ run w fuel (step w c) = step w c.
Proof.
  intros Hpc Hpend Hh Hbody Hch.
  assert (∀ c0 n, pc c0 = Stuck → run w n c0 = c0) as Hstuck.
  { intros c0 n H0. induction n as [|n IHn]; [reflexivity|].
    simpl. unfold step. rewrite H0. exact IHn. }
  assert (pc (step w c) = Stuck ∧ self (step w c) = self c
          ∧ trace (step w c) = trace c) as (H1 & H2 & H3).
  { unfold step. rewrite Hpc. unfold iteration, pending in *.
    destruct (is_empty cached) eqn:Ec; cbn [negb].
    - unfold readline. rewrite Hpend. unfold get_app_pids. cbn [polled pipe].
      rewrite Hch, Hh.
      rewrite (proj2 (read_block_none body) Hbody). repeat split.
    - injection Hpend as -> Hp. unfold get_app_pids. cbn [polled pipe].
      rewrite Hch, Hh, Hp.
      rewrite (proj2 (read_block_none body) Hbody). repeat split. }
  repeat split; try assumption. apply Hstuck. exact H1.
Qed.

Lemma last_block_is_never_handled_witness :
  let c := mkConfig (Looping {[ 100 ]} EmptyString) dolphin
                    (mkRuntime 1 1 block_pictures) [Popen 0] in
  pc (step world_churn c) = Stuck
  ∧ self (step world_churn c) = self c
  ∧ trace (step world_churn c) = trace c
  ∧ run world_churn 5 (step world_churn c) = step world_churn c.
Proof.
  apply (last_block_is_never_handled world_churn
           (mkConfig (Looping {[ 100 ]} EmptyString) dolphin
                     (mkRuntime 1 1 block_pictures) [Popen 0])
           {[ 100 ]} EmptyString line_call
           [line_string "dolphin"; line_uint32 "7";
            line_string "file:///home/u/Pictures"; line_uint32 "3"] 5).
  - reflexivity.
  - reflexivity.
  - reflexivity.
  - repeat constructor.
  - vm_compute. reflexivity.
Defined.

(** ** Subprocesses spawned and terminated *)

Lemma popens_app (tr1 tr2 : list effect) :
  popens (tr1 ++ tr2) = (popens tr1 + popens tr2)%nat.
Proof.
  induction tr1 as [|e tr1 IH]; simpl; [reflexivity|].
  destruct e; simpl; rewrite IH; reflexivity.
Qed.

Lemma terminates_app (tr1 tr2 : list effect) :
  terminates (tr1 ++ tr2) = (terminates tr1 + terminates tr2)%nat.
Proof.
  induction tr1 as [|e tr1 IH]; simpl; [reflexivity|].
  destruct e; simpl; rewrite IH; reflexivity.
Qed.

Lemma errors_app (tr1 tr2 : list effect) :
  errors (tr1 ++ tr2) = (errors tr1 + errors tr2)%nat.
Proof.
  induction tr1 as [|e tr1 IH]; simpl; [reflexivity|].
  destruct e; simpl; rewrite IH; reflexivity.
Qed.

Lemma counts_log_debug (m : DolphinMonitor) (msg : log_msg) :
  popens (log_debug m msg) = O ∧ terminates (log_debug m msg) = O
  ∧ errors (log_debug m msg) = O.
Proof. unfold log_debug. destruct (debug m); repeat split. Qed.

(** [handle_app_event] spawns nothing, terminates nothing, logs no error
    and leaves the handle of the subprocess alone. *)
Lemma handle_counts (m : DolphinMonitor) (e : AppCall) :
  popens (handle_app_event m e).2 = O
  ∧ terminates (handle_app_event m e).2 = O
  ∧ errors (handle_app_event m e).2 = O
  ∧ process (handle_app_event m e).1 = process m.
Proof.
  unfold handle_app_event, play_sound.
  repeat case_match; cbn [fst snd];
    rewrite ?popens_app, ?terminates_app, ?errors_app;
    repeat match goal with
    | |- context [log_debug ?x ?y] =>
        let H := fresh in
        destruct (counts_log_debug x y) as (H & ? & ?);
        rewrite ?H; clear H;
        generalize dependent (log_debug x y); intros
    end;
    simpl; repeat split; lia.
Qed.

Lemma one_subprocess_step (w : World) (c : Config) :
  one_subprocess c → one_subprocess (step w c).
Proof.
  unfold one_subprocess, live, step. intros (Hb & He & Hpc).
  destruct c as [p m r tr]. cbn [pc self rt trace] in *.
  destruct p as [|known cached| |e].
  - unfold enter, get_app_pids. cbn [pc self rt trace spawned].
    rewrite Hpc in Hb.
    destruct (spawn_ok w (spawned r)); cbn [trace self pc process set_process].
    + rewrite popens_app, terminates_app, errors_app. simpl.
      split; [lia|]. split; [lia|]. discriminate.
    + rewrite Hpc. split; [lia|]. split; [exact He|]. split; reflexivity.
  - unfold iteration. cbn [pc self rt trace].
    destruct (if negb (is_empty cached) then (cached, r) else readline r)
      as [line rt1].
    unfold get_app_pids.
    destruct (has_churn known (pids_at w (polled rt1))).
    + unfold restart. cbn [pc self rt trace].
      destruct (process m) as [n|] eqn:Ep; [|contradiction].
      cbn [trace self pc process set_process].
      rewrite !popens_app, !terminates_app, !errors_app.
      destruct (counts_log_debug m MsgChurn) as (-> & -> & ->).
      simpl. split; [lia|]. split; [lia|]. reflexivity.
    + destruct (contains "method call" line); [|auto].
      cbn [pipe]. destruct (read_block (pipe rt1)) as [[[more cached'] rest]|];
        [|cbn [pc self trace]; auto].
      destruct (extract_app_event (isdir w) m (line :: more)) as [event|e] eqn:Ex.
      * destruct (handle_counts m event) as (Hp & Ht & Her & Hproc).
        destruct (handle_app_event m event) as [self1 tr1].
        cbn [fst snd trace self pc] in *.
        rewrite !popens_app, !terminates_app, !errors_app, Hp, Ht, Her, Hproc.
        destruct (counts_log_debug m (MsgProcessed event)) as (-> & -> & ->).
        simpl. split; [lia|]. split; [lia|]. exact Hpc.
      * cbn [trace self pc].
        rewrite popens_app, terminates_app, errors_app. simpl.
        split; [lia|]. split; [lia|].
        split; [intros Hn; contradiction|].
        intros ->. exfalso.
        apply (extract_never_os_error (isdir w) m (line :: more) OSError Ex).
        reflexivity.
  - auto.
  - auto.
Qed.

Lemma one_subprocess_run (w : World) (fuel : nat) (c : Config) :
  one_subprocess c → one_subprocess (run w fuel c).
Proof.
  revert c. induction fuel as [|fuel IH]; intros c Hc; simpl; [exact Hc|].
  apply IH, one_subprocess_step, Hc.
Qed.

Lemma one_subprocess_start (m : DolphinMonitor) (r : Runtime) (tr : list effect) :
  process m = None → popens tr = O → terminates tr = O → errors tr = O →
  one_subprocess (mkConfig Entering m r tr).
Proof.
  intros Hm Hp Ht He. unfold one_subprocess, live. cbn [pc self trace].
  rewrite Hm, Hp, Ht. auto.
Qed.



Lemma main_run_account (w : World) (args : Args) (fuel : nat) (rt0 : Runtime) :
  one_subprocess
    (run w fuel (mkConfig Entering
                   (init_monitor (arg_debug args) (arg_app_name args))
                   rt0 [MixerInit])).
Proof. apply one_subprocess_run, one_subprocess_start; reflexivity. Qed.

Lemma run_errors_app (tr1 tr2 : list effect) :
  run_errors (tr1 ++ tr2) = (run_errors tr1 + run_errors tr2)%nat.
Proof.
  induction tr1 as [|e tr1 IH]; simpl; [reflexivity|].
  destruct e as [| | | |x| | | |]; try destruct x; simpl; rewrite IH; reflexivity.
Qed.

Lemma run_errors_none (tr : list effect) : errors tr = O → run_errors tr = O.
Proof.
  induction tr as [|e tr IH]; simpl; [reflexivity|].
  destruct e as [| | | |x| | | |]; try discriminate; exact IH.
Qed.

(** X21: in every trace of [main], each error logged, other than the
    failure to start a subprocess, stands for a subprocess that was spawned
    and that nothing has terminated: the subprocesses spawned are at least
    the ones terminated plus these errors, and at most one more.  The
    handler of [main] starts the next monitor without stopping the failed
    one. *)
Theorem fatal_error_leaves_subprocess (w : World) (args : Args)
    (depth fuel : nat) (rt0 : Runtime) :
  let tr := main w args depth fuel rt0 in
  (terminates tr + run_errors tr ≤ popens tr)%nat
  ∧ (popens tr ≤ terminates tr + run_errors tr + 1)%nat.
Proof.
  revert rt0. induction depth as [|depth IH]; intros rt0; cbn [main];
    pose proof (main_run_account w args fuel rt0) as (Hb & He & Hpc);
    apply run_errors_none in He;
    unfold live in Hb;
    destruct (pc (run w fuel _)) as [|known cached| |e] eqn:Epc;
    try (cbn zeta; destruct (process (self (run w fuel _))); lia).
  - cbn zeta. rewrite popens_app, terminates_app, run_errors_app.
    destruct (process (self (run w fuel _))) as [n|].
    + assert (e ≠ OSError) as Hne.
      { intros ->. assert (Some n = None) as Habs by (apply Hpc; reflexivity).
        discriminate Habs. }
      destruct e; try contradiction; simpl; lia.
    + rewrite (proj1 Hpc eq_refl). simpl. lia.
  - specialize (IH (rt (run w fuel
              (mkConfig Entering
                 (init_monitor (arg_debug args) (arg_app_name args))
                 rt0 [MixerInit])))).
    cbn zeta in IH |- *.
    rewrite !popens_app, !terminates_app, !run_errors_app.
    destruct (process (self (run w fuel _))) as [n|].
    + assert (e ≠ OSError) as Hne.
      { intros ->. assert (Some n = None) as Habs by (apply Hpc; reflexivity).
        discriminate Habs. }
      destruct e; try contradiction; simpl; lia.
    + rewrite (proj1 Hpc eq_refl). simpl. lia.
Qed.

(** ** The debug flag *)

Lemma no_info_app (tr1 tr2 : list effect) :
  no_info (tr1 ++ tr2) = no_info tr1 ++ no_info tr2.
Proof.
  induction tr1 as [|e tr1 IH]; simpl; [reflexivity|].
  destruct e; simpl; rewrite IH; reflexivity.
Qed.

Lemma no_info_log_debug (m : DolphinMonitor) (msg : log_msg) :
  no_info (log_debug m msg) = [].
Proof. unfold log_debug. destruct (debug m); reflexivity. Qed.

Lemma no_info_play_sound (m : DolphinMonitor) :
  no_info (play_sound m) = [PlaySound].
Proof.
  unfold play_sound. rewrite no_info_app, no_info_log_debug. reflexivity.
Qed.

(** The parser reads the application name of the monitor and nothing
    else of it. *)
Lemma scan_quiet (m : DolphinMonitor) (lines todo : list string) (a : AppCall) :
  scan (quiet m) lines todo a = scan m lines todo a.
Proof.
  revert a. induction todo as [|l todo IH]; intros a; [reflexivity|].
  simpl. change (scan_line (quiet m) lines a l) with (scan_line m lines a l).
  destruct (scan_line m lines a l); unfold mbind, result_bind; auto.
Qed.

Lemma extract_quiet (isdir : string → bool) (m : DolphinMonitor) (lines : list string) :
  extract_app_event isdir (quiet m) lines = extract_app_event isdir m lines.
Proof. unfold extract_app_event. rewrite scan_quiet. reflexivity. Qed.

Lemma handle_quiet (m : DolphinMonitor) (e : AppCall) :
  handle_app_event (quiet m) e
  = (quiet (handle_app_event m e).1, no_info (handle_app_event m e).2).
Proof.
  unfold handle_app_event.
  change (rejected (quiet m) e) with (rejected m e).
  change (state (quiet m)) with (state m).
  change (last_directory (quiet m)) with (last_directory m).
  repeat case_match; cbn [fst snd];
    rewrite ?no_info_app, ?no_info_play_sound, ?no_info_log_debug;
    reflexivity.
Qed.

Lemma quiet_of_step (w : World) (c c' : Config) :
  quiet_of c c' → quiet_of (step w c) (step w c').
Proof.
  unfold quiet_of. intros (Hpc & Hrt & Hself & Htr).
  destruct c as [p m r tr], c' as [p' m' r' tr']. simpl in *. subst p' r' m' tr'.
  unfold step. cbn [pc].
  destruct p as [|known cached| |e]; try (repeat split; reflexivity).
  - unfold enter, get_app_pids. cbn [rt self trace spawned polled pipe].
    destruct (spawn_ok w (spawned r)); cbn; [|repeat split].
    rewrite no_info_app. repeat split.
  - unfold iteration. cbn [rt self trace].
    destruct (if negb (is_empty cached) then (cached, r) else readline r)
      as [line rt1].
    unfold get_app_pids.
    destruct (has_churn known (pids_at w (polled rt1))).
    + unfold restart. cbn [self trace].
      change (process (quiet m)) with (process m).
      destruct (process m); cbn;
        rewrite !no_info_app, no_info_log_debug; repeat split.
    + destruct (contains "method call" line); [|repeat split].
      cbn [pipe]. destruct (read_block (pipe rt1)) as [[[more cached'] rest]|];
        [|repeat split].
      rewrite extract_quiet.
      destruct (extract_app_event (isdir w) m (line :: more)) as [event|e].
      * rewrite handle_quiet.
        destruct (handle_app_event m event) as [m1 tr1]. cbn.
        rewrite !no_info_app, no_info_log_debug. repeat split.
      * cbn. rewrite no_info_app. repeat split.
Qed.

(** X22: the debug flag only adds log lines.  Run with the flag off,
    [monitor] goes through the same steps, reads the same lines, ends with
    the same state fields and does the same things, in the same order, as
    with the flag on, the lines of [logging.info] left out. *)
Theorem debug_only_adds_log_lines (w : World) (fuel : nat) (m : DolphinMonitor)
    (rt0 : Runtime) :
  let c := run w fuel (mkConfig Entering m rt0 []) in
  let c' := run w fuel (mkConfig Entering (quiet m) rt0 []) in
  pc c' = pc c
  ∧ rt c' = rt c
  ∧ self c' = quiet (self c)
  ∧ trace c' = no_info (trace c).
Proof.
  assert (∀ c c', quiet_of c c' → quiet_of (run w fuel c) (run w fuel c')) as H.
  { induction fuel as [|fuel IH]; intros c c' Hc; simpl; [exact Hc|].
    apply IH, quiet_of_step, Hc. }
  apply H. repeat split.
Qed.

(** ** Time spent suspended *)

(** X23: whatever the world, the arguments and the length of the run,
    every suspension in a trace of [main] lasts 30, 100 or 500 ms: the
    debounce, the grace period and the settle delay of [monitor]. *)
Theorem main_sleeps_only_in_monitor (w : World) (args : Args)
    (depth fuel : nat) (rt0 : Runtime) (ms : N) :
  Sleep ms ∈ main w args depth fuel rt0 →
  ms = 30%N ∨ ms = 100%N ∨ ms = 500%N.
Proof.
  intros Hin.
  pose proof (monitor_sleep_main w args depth fuel rt0) as Hall.
  rewrite Forall_forall in Hall.
  exact (Hall (Sleep ms) Hin).
Qed.

Lemma main_sleeps_only_in_monitor_witness :
  30%N = 30%N ∨ 30%N = 100%N ∨ 30%N = 500%N.
Proof.
  apply (main_sleeps_only_in_monitor world_trash_error default_args 1 5
           start_runtime 30).
  vm_compute. do 2 right. left.
Defined.









(** ** Which lines set which field *)

Lemma scan_line_application_iff (m : DolphinMonitor) (lines : list string)
    (a a' : AppCall) (l : string) :
  scan_line m lines a l = Ok a' →
  (application a' = Some (app_name m)
   ↔ application a = Some (app_name m) ∨ contains (app_needle m) l = true).
Proof.
  unfold scan_line. intros H.
  destruct (contains (app_needle m) l) eqn:Happ.
  - returned H; subst a'; simpl; split; auto.
  - returned H; subst a'; simpl;
      (split; [auto | intros [?|?]; [assumption | discriminate]]).
Qed.

Lemma scan_application_iff (m : DolphinMonitor) (lines todo : list string)
    (a a' : AppCall) :
  scan m lines todo a = Ok a' →
  (application a' = Some (app_name m)
   ↔ application a = Some (app_name m)
     ∨ Exists (λ l, contains (app_needle m) l = true) todo).
Proof.
  revert a. induction todo as [|l todo IH]; intros a H; simpl in H.
  - injection H as <-. split; [auto|]. intros [?|Hex]; [assumption|].
    apply Exists_nil in Hex. contradiction.
  - apply bind_Ok in H as (a1 & H1 & H).
    rewrite (IH a1 H), (scan_line_application_iff m lines a a1 l H1), Exists_cons.
    tauto.
Qed.

(** X25: in a returned event [application] is set exactly when some line
    of the block holds the word [string], a space and the application name
    in double quotes, wherever in the line. *)
Theorem application_iff_name_line (isdir : string → bool) (m : DolphinMonitor)
    (lines : list string) (e : AppCall) :
  extract_app_event isdir m lines = Ok e →
  (application e = Some (app_name m)
   ↔ Exists (λ l, contains (app_needle m) l = true) lines).
Proof.
  unfold extract_app_event. intros H.
  apply bind_Ok in H as (a & Ha & H). injection H as <-.
  rewrite normalize_application, (scan_application_iff m lines lines empty_call a Ha).
  simpl. split; [intros [H|H]; [discriminate H | exact H] | auto].
Qed.

Lemma application_iff_name_line_witness :
  application pictures_event = Some (app_name dolphin)
  ↔ Exists (λ l, contains (app_needle dolphin) l = true) block_pictures.
Proof.
  apply (application_iff_name_line pictures_dir dolphin block_pictures).
  vm_compute. reflexivity.
Defined.

Lemma scan_line_assigns (m : DolphinMonitor) (lines : list string)
    (a a' : AppCall) (l : string) :
  assigns_path m l = true →
  scan_line m lines a l = Ok a' →
  is_Some (file_path a').
Proof.
  unfold assigns_path, path_candidate, scan_line. intros Hyes H.
  apply andb_true_iff in Hyes as [Hc Hyes].
  apply andb_true_iff in Hc as [Happ Hstr].
  apply negb_true_iff in Happ.
  rewrite Happ, Hstr in H.
  destruct (search_file l) as [g|].
  - returned H; subst a'; simpl; eexists; reflexivity.
  - destruct (search_trash l) as [g|]; [|discriminate Hyes].
    apply negb_true_iff in Hyes. rewrite Hyes in H.
    returned H; subst a'; simpl; eexists; reflexivity.
Qed.

Lemma scan_path_iff (m : DolphinMonitor) (lines todo : list string)
    (a a' : AppCall) :
  scan m lines todo a = Ok a' →
  (is_Some (file_path a')
   ↔ is_Some (file_path a) ∨ Exists (λ l, assigns_path m l = true) todo).
Proof.
  revert a. induction todo as [|l todo IH]; intros a H; simpl in H.
  - injection H as <-. split; [auto|]. intros [?|Hex]; [assumption|].
    apply Exists_nil in Hex. contradiction.
  - apply bind_Ok in H as (a1 & H1 & H).
    rewrite (IH a1 H), Exists_cons.
    destruct (assigns_path m l) eqn:E.
    + pose proof (scan_line_assigns m lines a a1 l E H1). tauto.
    + destruct (scan_line_keeps_path m lines a a1 l E H1) as [-> _].
      split; [tauto|]. intros [?|[?|?]]; [tauto | discriminate | tauto].
Qed.

(** X26: a returned event has a path exactly when the loop assigns one on
    some line of the block: a line other than an application line that
    holds the word [string] and matches the [file://] pattern, or else the
    [trash:/] pattern with a body that is not blank. *)
Theorem path_iff_path_line (isdir : string → bool) (m : DolphinMonitor)
    (lines : list string) (e : AppCall) :
  extract_app_event isdir m lines = Ok e →
  (is_Some (file_path e) ↔ Exists (λ l, assigns_path m l = true) lines).
Proof.
  unfold extract_app_event. intros H.
  apply bind_Ok in H as (a & Ha & H). injection H as <-.
  rewrite normalize_file_path, fmap_is_Some.
  rewrite (scan_path_iff m lines lines empty_call a Ha).
  simpl. split; [intros [[p Hp]|Hex]; [discriminate Hp | exact Hex] | auto].
Qed.

Lemma path_iff_path_line_witness :
  is_Some (file_path pictures_event)
  ↔ Exists (λ l, assigns_path dolphin l = true) block_pictures.
Proof.
  apply (path_iff_path_line pictures_dir dolphin block_pictures).
  vm_compute. reflexivity.
Defined.
